(** * SimBuild: device/process session manager

    A shallow embedding of the session code of the SimBuild extension:
    - [devices/manager.ts]: the target catalog ([listAllDevices]), the device
      session ([bootSimulator], [terminateApp]) and the log stream session
      ([startLogStream], [stopLogStream], [isLogStreamRunning]);
    - [simulator/list.ts]: the older, sorted listing of simulators;
    - [xcode/build.ts]: the build session ([build], [stopBuild]).

    Conventions of the embedding.
    - A JavaScript string is a [string]; each character stands for one UTF-16
      code unit below 256.  The white-space and line-terminator classes are
      the ECMAScript ones restricted to that range.
    - A JavaScript number that only ever holds a natural number is a [Z];
      the one arithmetic operation on it ([++]) is written with the rounding
      a double applies at 2^53.
    - Subprocess output arrives as events; a chunk is the text that
      [data.toString()] produced.
    - Caller-supplied callbacks are functions into a trace: what a callback
      does is observed as the list it returns. *)

From Stdlib Require Import ZArith List String Ascii Bool Lia.
From Stdlib Require Import Permutation.
Import ListNotations.
Open Scope list_scope.
Open Scope string_scope.

(** ** JavaScript string primitives used by the sources *)
Module JsString.

(** The double-quote character, for template literals that contain it. *)
Definition dq : string := String (ascii_of_nat 34) EmptyString.

Definition LF : ascii := ascii_of_nat 10.
Definition CR : ascii := ascii_of_nat 13.

(** ECMAScript [LineTerminator]: LF and CR (U+2028 and U+2029 lie outside
    the modelled range). *)
Definition isLineTerminator (c : ascii) : bool :=
  let n := nat_of_ascii c in (n =? 10)%nat || (n =? 13)%nat.

(** What [\s] and [trim] treat as white space: TAB, LF, VT, FF, CR, SP and
    NBSP. *)
Definition isWhiteSpace (c : ascii) : bool :=
  let n := nat_of_ascii c in
  ((9 <=? n)%nat && (n <=? 13)%nat) || (n =? 32)%nat || (n =? 160)%nat.

(** [\d] *)
Definition isDigit (c : ascii) : bool :=
  let n := nat_of_ascii c in (48 <=? n)%nat && (n <=? 57)%nat.

(** Truthiness of a string: non-empty. *)
Definition truthy (s : string) : bool :=
  match s with EmptyString => false | String _ _ => true end.

(** [s.startsWith(p)] *)
Definition startsWith (s p : string) : bool := String.prefix p s.

(** [s.includes(p)] *)
Fixpoint includes (s p : string) : bool :=
  startsWith s p ||
  match s with
  | EmptyString => false
  | String _ s' => includes s' p
  end.

(** [s.split(sep)] for a one-character separator. *)
Fixpoint split (sep : ascii) (s : string) : list string :=
  match s with
  | EmptyString => [EmptyString]
  | String c s' =>
      if Ascii.eqb c sep then EmptyString :: split sep s'
      else match split sep s' with
           | l :: ls => String c l :: ls
           | [] => [String c EmptyString]
           end
  end.

Fixpoint trimStart (s : string) : string :=
  match s with
  | EmptyString => EmptyString
  | String c s' => if isWhiteSpace c then trimStart s' else s
  end.

Fixpoint trimEnd (s : string) : string :=
  match s with
  | EmptyString => EmptyString
  | String c s' =>
      match trimEnd s' with
      | EmptyString => if isWhiteSpace c then EmptyString else String c EmptyString
      | t => String c t
      end
  end.

(** [s.trim()] *)
Definition trim (s : string) : string := trimEnd (trimStart s).

(** If [p] starts [s], what follows it. *)
Fixpoint stripPrefix (p s : string) : option string :=
  match p with
  | EmptyString => Some s
  | String a p' =>
      match s with
      | EmptyString => None
      | String b s' => if Ascii.eqb a b then stripPrefix p' s' else None
      end
  end.

(** The longest prefix of [s] whose characters all satisfy [f]. *)
Fixpoint takeWhile (f : ascii -> bool) (s : string) : string :=
  match s with
  | EmptyString => EmptyString
  | String c s' => if f c then String c (takeWhile f s') else EmptyString
  end.

Fixpoint dropWhile (f : ascii -> bool) (s : string) : string :=
  match s with
  | EmptyString => EmptyString
  | String c s' => if f c then dropWhile f s' else s
  end.

Fixpoint forallb (f : ascii -> bool) (s : string) : bool :=
  match s with
  | EmptyString => true
  | String c s' => f c && forallb f s'
  end.

(** One code unit of [toLowerCase]: A-Z, and the Latin-1 capitals
    U+00C0-U+00DE without the multiplication sign. *)
Definition lowerChar (c : ascii) : ascii :=
  let n := nat_of_ascii c in
  if ((65 <=? n)%nat && (n <=? 90)%nat)
     || ((192 <=? n)%nat && (n <=? 222)%nat && negb (n =? 215)%nat)
  then ascii_of_nat (n + 32) else c.

(** [s.toLowerCase()] *)
Fixpoint toLowerCase (s : string) : string :=
  match s with
  | EmptyString => EmptyString
  | String c s' => String (lowerChar c) (toLowerCase s')
  end.

(** [parseInt] of a run of decimal digits (exact below 2^53). *)
Fixpoint parseIntFrom (acc : Z) (s : string) : Z :=
  match s with
  | EmptyString => acc
  | String c s' => parseIntFrom (acc * 10 + Z.of_nat (nat_of_ascii c) - 48)%Z s'
  end.

Definition parseInt (s : string) : Z := parseIntFrom 0 s.

(** [a || b] on strings that may be undefined: the first truthy one. *)
Definition orElse (a : option string) (b : string) : string :=
  match a with
  | Some (String c s) => String c s
  | _ => b
  end.

End JsString.

(** ** The regular expressions of the sources

    Each pattern is written as the leftmost, greedy, backtracking matcher
    that the RegExp denotes; the result is the capture group the source
    reads. *)
Module Regex.
Import JsString.

(** [/^(Compile|Link|Copy|Process|Sign|Build|Analyze|CodeSign)/m] *)
Definition phases : list string :=
  ["Compile"; "Link"; "Copy"; "Process"; "Sign"; "Build"; "Analyze"; "CodeSign"].

(** The alternation at one position: the first alternative that fits. *)
Definition phaseHere (s : string) : option string :=
  find (fun k => startsWith s k) phases.

(** [atLineStart] tells whether [^] holds at the head of [s]: at the start
    of the input, or right after a line terminator (flag [m]). *)
Fixpoint phaseFrom (atLineStart : bool) (s : string) : option string :=
  match (if atLineStart then phaseHere s else None) with
  | Some k => Some k
  | None =>
      match s with
      | EmptyString => None
      | String c s' => phaseFrom (isLineTerminator c) s'
      end
  end.

(** [text.match(...)]: group 0 of the first match. *)
Definition phaseMatch (text : string) : option string := phaseFrom true text.

(** [/error: (.+)/]: group 1.  [.] is any character but a line terminator. *)
Definition errorHere (s : string) : option string :=
  match stripPrefix "error: " s with
  | Some rest =>
      match takeWhile (fun c => negb (isLineTerminator c)) rest with
      | EmptyString => None
      | m => Some m
      end
  | None => None
  end.

Fixpoint errorMatch (s : string) : option string :=
  match errorHere s with
  | Some m => Some m
  | None =>
      match s with
      | EmptyString => None
      | String _ s' => errorMatch s'
      end
  end.

(** Characters that stand for themselves in a pattern. *)
Definition isSyntaxCharacter (c : ascii) : bool :=
  includes "\^$.*+?()[]{}|" (String c EmptyString).

Definition isLiteralPattern (s : string) : bool :=
  JsString.forallb (fun c => negb (isSyntaxCharacter c)) s.

(** [(?:\s|$)] after a literal [tail], flag [m]: [tail] is next and then
    comes white space, a line terminator or the end of the input. *)
Definition tailHere (tail s : string) : bool :=
  match stripPrefix tail s with
  | Some EmptyString => true
  | Some (String c _) => isWhiteSpace c
  | None => false
  end.

(** [[^\s]*] followed by [tail(?:\s|$)]: greedy, giving back one character
    at a time.  The result is what the class consumed. *)
Fixpoint nonSpaceThen (tail s : string) : option string :=
  match s with
  | EmptyString => if tailHere tail s then Some EmptyString else None
  | String c s' =>
      if isWhiteSpace c then
        if tailHere tail s then Some EmptyString else None
      else
        match nonSpaceThen tail s' with
        | Some m => Some (String c m)
        | None => if tailHere tail s then Some EmptyString else None
        end
  end.

(** The whole pattern tried at the head of [s]: group 1. *)
Definition appPathHere (tail s : string) : option string :=
  match stripPrefix "/" s with
  | Some (String c s') =>
      if isWhiteSpace c then None
      else match nonSpaceThen tail s' with
           | Some m => Some ("/" ++ String c m ++ tail)
           | None => None
           end
  | _ => None
  end.

Fixpoint appPathFrom (tail s : string) : option string :=
  match appPathHere tail s with
  | Some p => Some p
  | None =>
      match s with
      | EmptyString => None
      | String _ s' => appPathFrom tail s'
      end
  end.

(** The literal part of the pattern after [/[^\s]+]. *)
Definition appPathTail (productDir scheme : string) : string :=
  "/" ++ productDir ++ "/" ++ scheme ++ ".app".

(** [new RegExp(`(/[^\\s]+/${productDir}/${scheme}\\.app)(?:\\s|$)`, 'm')]
    and the [match] on it.  The scheme is pasted into the pattern as it is;
    the embedding covers the schemes in which every character stands for
    itself, and answers [None] for the others. *)
Definition appPathRegExp (productDir scheme : string)
  : option (string -> option string) :=
  if isLiteralPattern productDir && isLiteralPattern scheme
  then Some (appPathFrom (appPathTail productDir scheme))
  else None.

(** [prefix(\d+)sep(\d+)] tried at the head of [s]: groups 1 and 2. *)
Definition twoNumbersHere (prefix : string) (sep : ascii) (s : string)
  : option (string * string) :=
  match stripPrefix prefix s with
  | Some rest =>
      match takeWhile isDigit rest, dropWhile isDigit rest with
      | String a major, String c rest' =>
          if Ascii.eqb c sep then
            match takeWhile isDigit rest' with
            | String b minor => Some (String a major, String b minor)
            | EmptyString => None
            end
          else None
      | _, _ => None
      end
  | None => None
  end.

Fixpoint twoNumbers (prefix : string) (sep : ascii) (s : string)
  : option (string * string) :=
  match twoNumbersHere prefix sep s with
  | Some m => Some m
  | None =>
      match s with
      | EmptyString => None
      | String _ s' => twoNumbers prefix sep s'
      end
  end.

(** [/iOS-(\d+)-(\d+)/] *)
Definition runtimeMatch (s : string) : option (string * string) :=
  twoNumbers "iOS-" "-" s.

(** [/iOS (\d+)\.(\d+)/] *)
Definition versionMatch (s : string) : option (string * string) :=
  twoNumbers "iOS " "." s.

End Regex.


(** ** The host: commands, exceptions and the output of [simctl] *)
Module Host.

(** Asynchronous functions that run commands.

    A thrown value is an object that may carry a [message].  A command is
    answered by the shell, which sees the commands run before it; a
    computation threads that history and either returns or throws. *)
Record Error := { message : option string }.

Inductive Outcome (T : Type) : Type :=
| Return (v : T)
| Throw (e : Error).
Arguments Return {T} v.
Arguments Throw {T} e.

Definition Shell := list string -> string -> Outcome string.

Definition Async (T : Type) : Type :=
  Shell -> list string -> list string * Outcome T.

Definition ret {T} (v : T) : Async T := fun _ tr => (tr, Return v).

Definition throw {T} (e : Error) : Async T := fun _ tr => (tr, Throw e).

Definition bind {T U} (m : Async T) (k : T -> Async U) : Async U :=
  fun sh tr =>
    match m sh tr with
    | (tr', Return v) => k v sh tr'
    | (tr', Throw e) => (tr', Throw e)
    end.

(** [try { body } catch (e) { handler e }] *)
Definition tryCatch {T} (body : Async T) (handler : Error -> Async T) : Async T :=
  fun sh tr =>
    match body sh tr with
    | (tr', Return v) => (tr', Return v)
    | (tr', Throw e) => handler e sh tr'
    end.

(** A synchronous step that may throw, such as [JSON.parse]. *)
Definition lift {T} (o : Outcome T) : Async T := fun _ tr => (tr, o).

(** [await execAsync(cmd)], read for its [stdout]. *)
Definition execAsync (cmd : string) : Async string :=
  fun sh tr => ((tr ++ [cmd])%list, sh tr cmd).

Declare Scope async_scope.
Delimit Scope async_scope with async.
Notation "x <- m ;; k" := (bind m (fun x => k))
  (at level 61, m at next level, right associativity) : async_scope.
Notation "m ;;; k" := (bind m (fun _ => k))
  (at level 61, right associativity) : async_scope.

(** The shape read from [simctl list devices --json]; [devices]
    is the object as [Object.entries] walks it. *)
Module Simctl.
Record Device := {
  udid : string;
  name : string;
  state : string;
  isAvailable : bool
}.
Record Output := { devices : list (string * list Device) }.
End Simctl.

End Host.

(** ** [devices/manager.ts] *)
Module Manager.
Import JsString Regex.
Export Host.

Module DeviceType.
Inductive t := simulator | device.
Definition eqb (a b : t) : bool :=
  match a, b with
  | simulator, simulator | device, device => true
  | _, _ => false
  end.
End DeviceType.

Record Device := {
  udid : string;
  name : string;
  type : DeviceType.t;
  state : string;
  platform : string;
  osVersion : string;
  isAvailable : bool
}.

(** *** Target catalog *)

(** The shape the code reads from [devicectl list devices]. *)
Module Devicectl.
Record Device := {
  identifier : string;
  hardwareProperties_udid : option string;
  deviceProperties_name : option string;
  deviceProperties_osVersionNumber : option string;
  connectionProperties_transportType : option string
}.
Record Output := { result_devices : option (list Device) }.
End Devicectl.

Definition isTransport (d : Devicectl.Device) (t : string) : bool :=
  match Devicectl.connectionProperties_transportType d with
  | Some t' => String.eqb t' t
  | None => false
  end.

Section Catalog.
(** The host's part.  [parseSimctl] and [parseDevicectl] stand for
    [JSON.parse] and the reads of the fields of its result: a text that is
    not JSON, or JSON of another shape, makes one of them throw, inside the
    [try] block.  [xctraceLine] is the RegExp of the legacy listing,
    [/^(.+?)\s+\((\d+\.\d+(?:\.\d+)?)\)\s+\(([A-F0-9-]+)\)$/i], with its
    three groups. *)
Variable parseSimctl : string -> Outcome Simctl.Output.
Variable parseDevicectl : string -> Outcome Devicectl.Output.
Variable xctraceLine : string -> option (string * string * string).

Local Open Scope async_scope.

Definition simulatorOsVersion (runtime : string) : string :=
  match runtimeMatch runtime with
  | Some (major, minor) => major ++ "." ++ minor
  | None => "Unknown"
  end.

(** The two nested loops of [listSimulators]. *)
Definition simulatorsOf (data : Simctl.Output) : list Device :=
  flat_map
    (fun entry : string * list Simctl.Device =>
       let (runtime, simDevices) := entry in
       let osVersion := simulatorOsVersion runtime in
       flat_map
         (fun d : Simctl.Device =>
            if Simctl.isAvailable d then
              [ {| udid := Simctl.udid d;
                   name := Simctl.name d;
                   type := DeviceType.simulator;
                   state := Simctl.state d;
                   platform := "iOS Simulator";
                   osVersion := osVersion;
                   isAvailable := Simctl.isAvailable d |} ]
            else [])
         simDevices)
    (Simctl.devices data).

Definition listSimulators : Async (list Device) :=
  tryCatch
    (stdout <- execAsync "xcrun simctl list devices available --json" ;;
     data <- lift (parseSimctl stdout) ;;
     ret (simulatorsOf data))
    (fun _ => ret []).

Definition devicectlDevicesOf (data : Devicectl.Output) : list Device :=
  flat_map
    (fun d : Devicectl.Device =>
       if isTransport d "wired" || isTransport d "network" then
         [ {| udid := orElse (Devicectl.hardwareProperties_udid d)
                             (Devicectl.identifier d);
              name := orElse (Devicectl.deviceProperties_name d) "Unknown Device";
              type := DeviceType.device;
              state := if isTransport d "wired" then "Connected" else "Network";
              platform := "iOS";
              osVersion := orElse (Devicectl.deviceProperties_osVersionNumber d)
                                  "Unknown";
              isAvailable := true |} ]
       else [])
    (match Devicectl.result_devices data with Some ds => ds | None => [] end).

Definition listDevicesWithDevicectl : Async (list Device) :=
  tryCatch
    (stdout <- execAsync
       "xcrun devicectl list devices --json-output /dev/stdout 2>/dev/null" ;;
     data <- lift (parseDevicectl stdout) ;;
     ret (devicectlDevicesOf data))
    (fun _ => ret []).

Definition instrumentsDevicesOf (stdout : string) : list Device :=
  flat_map
    (fun line =>
       match xctraceLine line with
       | Some (m1, m2, m3) =>
           if negb (includes (toLowerCase line) "simulator") then
             [ {| udid := m3;
                  name := trim m1;
                  type := DeviceType.device;
                  state := "Connected";
                  platform := "iOS";
                  osVersion := m2;
                  isAvailable := true |} ]
           else []
       | None => []
       end)
    (split LF stdout).

Definition listDevicesWithInstruments : Async (list Device) :=
  tryCatch
    (stdout <- execAsync "xcrun xctrace list devices 2>/dev/null" ;;
     ret (instrumentsDevicesOf stdout))
    (fun _ => ret []).

Definition listRealDevices : Async (list Device) :=
  tryCatch
    (devices <- listDevicesWithDevicectl ;;
     if (0 <? List.length devices)%nat then ret devices
     else listDevicesWithInstruments)
    (fun _ => ret []).

Definition listAllDevices : Async (list Device) :=
  simulators <- listSimulators ;;
  realDevices <- listRealDevices ;;
  ret (simulators ++ realDevices)%list.

End Catalog.

(** *** Device session *)
Section DeviceSession.
Local Open Scope async_scope.

(** [error.message?.includes(text)], as a condition. *)
Definition messageIncludes (e : Error) (text : string) : bool :=
  match message e with
  | Some m => includes m text
  | None => false
  end.

Definition bootSimulator (udid : string) : Async unit :=
  tryCatch
    (execAsync ("xcrun simctl boot " ++ dq ++ udid ++ dq) ;;; ret tt)
    (fun error =>
       if negb (messageIncludes error
                  "Unable to boot device in current state: Booted")
       then throw error
       else ret tt).

Definition openSimulatorApp : Async unit :=
  execAsync "open -a Simulator" ;;; ret tt.

Definition terminateApp (device : Device) (bundleId : string) : Async unit :=
  tryCatch
    (if DeviceType.eqb (type device) DeviceType.simulator then
       execAsync ("xcrun simctl terminate " ++ dq ++ udid device ++ dq
                  ++ " " ++ dq ++ bundleId ++ dq) ;;; ret tt
     else ret tt)
    (fun _ => ret tt).

End DeviceSession.

(** *** Log stream session *)

Inductive LogMode := stdout | system | both.

Definition LogMode_eqb (a b : LogMode) : bool :=
  match a, b with
  | stdout, stdout | system, system | both, both => true
  | _, _ => false
  end.

(** The events the module listens to: ['data'] on the two streams of a
    child, and ['close'] and ['error'] on the child. *)
Inductive EventName := stdoutData | stderrData | close | error.

Definition EventName_eqb (a b : EventName) : bool :=
  match a, b with
  | stdoutData, stdoutData | stderrData, stderrData
  | close, close | error, error => true
  | _, _ => false
  end.

(** The module-level variables.  A child process is known by the position
    at which it was spawned. *)
Record Globals := {
  logProcess : option nat;
  logProcessId : Z;
  stdoutLogProcess : option nat
}.

(** [++logProcessId]: a double counts exactly up to 2^53 and stays there. *)
Definition increment (n : Z) : Z :=
  if (n <? 2 ^ 53)%Z then (n + 1)%Z else n.

Fixpoint updateAt {T} (f : T -> T) (n : nat) (l : list T) : list T :=
  match l, n with
  | [], _ => []
  | x :: r, O => f x :: r
  | x :: r, S n' => x :: updateAt f n' r
  end.

Section LogStream.
(** What the caller's callbacks leave behind. *)
Variable A : Type.

Record LogStreamOptions := {
  device : Device;
  bundleId : string;
  mode : option LogMode;
  onLog : string -> list A;
  onError : string -> list A;
  onClose : unit -> list A
}.

(** A listener is a closure over the variables of one [startLogStream]
    call; it reads and writes the module variables and calls back. *)
Definition Listener : Type := Globals -> string -> Globals * list A.

Record ChildProcess := {
  spawnfile : string;
  spawnargs : list string;
  signals : list string;
  listeners : list (EventName * Listener)
}.

Record World := {
  globals : Globals;
  processes : list ChildProcess
}.

Definition setLogProcess (v : option nat) (w : World) : World :=
  {| globals := {| logProcess := v;
                   logProcessId := logProcessId (globals w);
                   stdoutLogProcess := stdoutLogProcess (globals w) |};
     processes := processes w |}.

Definition setStdoutLogProcess (v : option nat) (w : World) : World :=
  {| globals := {| logProcess := logProcess (globals w);
                   logProcessId := logProcessId (globals w);
                   stdoutLogProcess := v |};
     processes := processes w |}.

Definition setLogProcessId (v : Z) (w : World) : World :=
  {| globals := {| logProcess := logProcess (globals w);
                   logProcessId := v;
                   stdoutLogProcess := stdoutLogProcess (globals w) |};
     processes := processes w |}.

(** [spawn(file, args)] *)
Definition spawn (file : string) (args : list string) (w : World) : World * nat :=
  ({| globals := globals w;
      processes := (processes w ++
                    [ {| spawnfile := file; spawnargs := args;
                         signals := []; listeners := [] |} ])%list |},
   List.length (processes w)).

(** [child.on(ev, l)], and the same on [child.stdout] and [child.stderr]. *)
Definition on (pid : nat) (ev : EventName) (l : Listener) (w : World) : World :=
  {| globals := globals w;
     processes :=
       updateAt (fun p => {| spawnfile := spawnfile p; spawnargs := spawnargs p;
                             signals := signals p;
                             listeners := (listeners p ++ [(ev, l)])%list |})
                pid (processes w) |}.

(** [child.kill(sig)] *)
Definition kill (pid : nat) (sig : string) (w : World) : World :=
  {| globals := globals w;
     processes :=
       updateAt (fun p => {| spawnfile := spawnfile p; spawnargs := spawnargs p;
                             signals := (signals p ++ [sig])%list;
                             listeners := listeners p |})
                pid (processes w) |}.

Definition stopLogStream (w : World) : World * bool :=
  let stopped := false in
  let (w, stopped) :=
    match stdoutLogProcess (globals w) with
    | Some p => (setStdoutLogProcess None (kill p "SIGTERM" w), true)
    | None => (w, stopped)
    end in
  let (w, stopped) :=
    match logProcess (globals w) with
    | Some p => (setLogProcess None (kill p "SIGTERM" w), true)
    | None => (w, stopped)
    end in
  (w, stopped).

Definition isLogStreamRunning (w : World) : bool :=
  match logProcess (globals w), stdoutLogProcess (globals w) with
  | None, None => false
  | _, _ => true
  end.

(** The loop over [data.toString().split('\n')]. *)
Definition forLines (f : string -> list A) (data : string) : list A :=
  flat_map (fun line => if truthy (trim line) then f line else [])
           (split LF data).

(** The four listeners put on the console launch of a simulator. *)
Definition consoleListeners (currentProcessId : Z) (mode : LogMode)
    (options : LogStreamOptions) : list (EventName * Listener) :=
  [ (stdoutData, fun g data =>
       if negb (currentProcessId =? logProcessId g)%Z then (g, [])
       else (g, forLines (fun line => onLog options line) data));
    (stderrData, fun g data =>
       if negb (currentProcessId =? logProcessId g)%Z then (g, [])
       else (g, forLines (fun line => onLog options ("[stderr] " ++ line)) data));
    (close, fun g _ =>
       if negb (currentProcessId =? logProcessId g)%Z then (g, [])
       else ({| logProcess := logProcess g;
                logProcessId := logProcessId g;
                stdoutLogProcess := None |},
             if LogMode_eqb mode stdout then onClose options tt else []));
    (error, fun g message =>
       if negb (currentProcessId =? logProcessId g)%Z then (g, [])
       else (g, onError options message)) ].

(** The four listeners put on [logProcess] at the end of the function. *)
Definition logListeners (currentProcessId : Z)
    (options : LogStreamOptions) : list (EventName * Listener) :=
  [ (stdoutData, fun g data =>
       if negb (currentProcessId =? logProcessId g)%Z then (g, [])
       else (g, forLines (fun line => onLog options line) data));
    (stderrData, fun g data =>
       if negb (currentProcessId =? logProcessId g)%Z then (g, [])
       else (g, onError options data));
    (close, fun g _ =>
       if negb (currentProcessId =? logProcessId g)%Z then (g, [])
       else ({| logProcess := None;
                logProcessId := logProcessId g;
                stdoutLogProcess := stdoutLogProcess g |},
             onClose options tt));
    (error, fun g message =>
       if negb (currentProcessId =? logProcessId g)%Z then (g, [])
       else ({| logProcess := None;
                logProcessId := logProcessId g;
                stdoutLogProcess := stdoutLogProcess g |},
             onError options message)) ].

Definition onAll (pid : nat) (ls : list (EventName * Listener)) (w : World) : World :=
  fold_left (fun w el => on pid (fst el) (snd el) w) ls w.

(** [bundleId.split('.').pop() || bundleId] *)
Definition processNameOf (bundleId : string) : string :=
  orElse (Some (last (split "." bundleId) EmptyString)) bundleId.

Definition startLogStream (options : LogStreamOptions) (w : World) : World * bool :=
  let w := fst (stopLogStream w) in
  let mode := match mode options with Some m => m | None => stdout end in
  let currentProcessId := increment (logProcessId (globals w)) in
  let w := setLogProcessId currentProcessId w in
  (* [inl]: the function has returned; [inr]: it goes on. *)
  let branch : (World * bool) + World :=
    if DeviceType.eqb (type (device options)) DeviceType.simulator then
      let console : (World * bool) + World :=
        if LogMode_eqb mode stdout || LogMode_eqb mode both then
          let (w, p) :=
            spawn "xcrun"
                  ["simctl"; "launch"; "--console-pty"; "--terminate-running-process";
                   udid (device options); bundleId options] w in
          let w := setStdoutLogProcess (Some p) w in
          let w := onAll p (consoleListeners currentProcessId mode options) w in
          if LogMode_eqb mode stdout then
            inl (setLogProcess (stdoutLogProcess (globals w)) w, true)
          else inr w
        else inr w in
      match console with
      | inl r => inl r
      | inr w =>
          if LogMode_eqb mode system || LogMode_eqb mode both then
            let processName := processNameOf (bundleId options) in
            let (w, p) :=
              spawn "xcrun"
                    ["simctl"; "spawn"; udid (device options);
                     "log"; "stream";
                     "--level"; "debug";
                     "--style"; "compact";
                     "--predicate";
                     "processImagePath contains " ++ dq ++ processName ++ dq
                     ++ " OR subsystem contains " ++ dq ++ bundleId options ++ dq] w in
            inr (setLogProcess (Some p) w)
          else inr w
      end
    else
      if LogMode_eqb mode stdout || LogMode_eqb mode both then
        let (w, p) :=
          spawn "xcrun"
                ["devicectl"; "device"; "process"; "launch";
                 "-d"; udid (device options);
                 "--console";
                 "--terminate-existing";
                 bundleId options] w in
        inr (setLogProcess (Some p) w)
      else
        let (w, p) := spawn "idevicesyslog" ["-u"; udid (device options)] w in
        inr (setLogProcess (Some p) w) in
  match branch with
  | inl r => r
  | inr w =>
      match logProcess (globals w) with
      | None => (w, false)
      | Some p => (onAll p (logListeners currentProcessId options) w, true)
      end
  end.

(** An event of child [pid] reaches its listeners, in the order in which
    they were added. *)
Fixpoint dispatch (ls : list (EventName * Listener)) (ev : EventName)
    (payload : string) (g : Globals) : Globals * list A :=
  match ls with
  | [] => (g, [])
  | (e, l) :: ls' =>
      if EventName_eqb e ev then
        let (g', out) := l g payload in
        let (g'', out') := dispatch ls' ev payload g' in
        (g'', (out ++ out')%list)
      else dispatch ls' ev payload g
  end.

Definition emit (pid : nat) (ev : EventName) (payload : string) (w : World)
  : World * list A :=
  match nth_error (processes w) pid with
  | None => (w, [])
  | Some p =>
      let (g, out) := dispatch (listeners p) ev payload (globals w) in
      ({| globals := g; processes := processes w |}, out)
  end.

(** What can happen to the session: a call of one of its two functions,
    or an event of a child it spawned. *)
Inductive Op :=
| Start (options : LogStreamOptions)
| Stop
| Emit (pid : nat) (ev : EventName) (payload : string).

Definition step (w : World) (op : Op) : World * list A :=
  match op with
  | Start options => (fst (startLogStream options w), [])
  | Stop => (fst (stopLogStream w), [])
  | Emit pid ev payload => emit pid ev payload w
  end.

Fixpoint run (ops : list Op) (w : World) : World * list A :=
  match ops with
  | [] => (w, [])
  | op :: ops' =>
      let (w', out) := step w op in
      let (w'', out') := run ops' w' in
      (w'', (out ++ out')%list)
  end.

(** The module as loaded. *)
Definition initial : World :=
  {| globals := {| logProcess := None; logProcessId := 0;
                   stdoutLogProcess := None |};
     processes := [] |}.

End LogStream.

Arguments device {A} _.
Arguments bundleId {A} _.
Arguments mode {A} _.
Arguments onLog {A} _ _.
Arguments onError {A} _ _.
Arguments onClose {A} _ _.
Arguments spawnfile {A} _.
Arguments spawnargs {A} _.
Arguments signals {A} _.
Arguments listeners {A} _.
Arguments globals {A} _.
Arguments processes {A} _.
Arguments setLogProcess {A} _ _.
Arguments setStdoutLogProcess {A} _ _.
Arguments setLogProcessId {A} _ _.
Arguments spawn {A} _ _ _.
Arguments on {A} _ _ _ _.
Arguments kill {A} _ _ _.
Arguments stopLogStream {A} _.
Arguments isLogStreamRunning {A} _.
Arguments forLines {A} _ _.
Arguments consoleListeners {A} _ _ _.
Arguments logListeners {A} _ _.
Arguments onAll {A} _ _ _.
Arguments startLogStream {A} _ _.
Arguments dispatch {A} _ _ _ _.
Arguments emit {A} _ _ _ _.
Arguments Start {A} _.
Arguments Stop {A}.
Arguments Emit {A} _ _ _.
Arguments step {A} _ _.
Arguments run {A} _ _.
Arguments initial {A}.

(** *** Installing and launching *)
Section InstallLaunch.
Local Open Scope async_scope.

Definition installApp (device : Device) (appPath : string) : Async unit :=
  if DeviceType.eqb (type device) DeviceType.simulator then
    execAsync ("xcrun simctl install " ++ dq ++ udid device ++ dq
               ++ " " ++ dq ++ appPath ++ dq) ;;; ret tt
  else
    tryCatch
      (execAsync ("xcrun devicectl device install app -d " ++ dq ++ udid device ++ dq
                  ++ " " ++ dq ++ appPath ++ dq) ;;; ret tt)
      (fun _ =>
         execAsync ("ios-deploy --id " ++ dq ++ udid device ++ dq
                    ++ " --bundle " ++ dq ++ appPath ++ dq) ;;; ret tt).

Definition launchApp (device : Device) (bundleId : string) : Async unit :=
  if DeviceType.eqb (type device) DeviceType.simulator then
    execAsync ("xcrun simctl launch " ++ dq ++ udid device ++ dq
               ++ " " ++ dq ++ bundleId ++ dq) ;;; ret tt
  else
    tryCatch
      (execAsync ("xcrun devicectl device process launch -d " ++ dq ++ udid device ++ dq
                  ++ " " ++ dq ++ bundleId ++ dq) ;;; ret tt)
      (fun _ =>
         execAsync ("ios-deploy --id " ++ dq ++ udid device ++ dq
                    ++ " --bundle-id " ++ dq ++ bundleId ++ dq ++ " --justlaunch") ;;; ret tt).

End InstallLaunch.

End Manager.

(** ** [simulator/list.ts] *)
Module SimulatorList.
Import JsString Regex Host.

Record Simulator := {
  udid : string;
  name : string;
  state : string;
  runtime : string;
  isAvailable : bool
}.

(** [array.sort(compare)]: the sort is stable, and [compare a b] below zero
    puts [a] first. *)
Fixpoint insert {T} (compare : T -> T -> Z) (x : T) (l : list T) : list T :=
  match l with
  | [] => [x]
  | y :: r => if (compare x y <? 0)%Z then x :: l else y :: insert compare x r
  end.

Definition sort {T} (compare : T -> T -> Z) (l : list T) : list T :=
  fold_left (fun sorted x => insert compare x sorted) l [].

Section List.
Variable parseSimctl : string -> Outcome Simctl.Output.
(** [a.localeCompare(b)] is the host's collation. *)
Variable localeCompare : string -> string -> Z.

Local Open Scope async_scope.

Definition runtimeNameOf (runtime : string) : string :=
  match runtimeMatch runtime with
  | Some (major, minor) => "iOS " ++ major ++ "." ++ minor
  | None => runtime
  end.

Definition simulatorsOf (data : Simctl.Output) : list Simulator :=
  flat_map
    (fun entry : string * list Simctl.Device =>
       let (runtime, devices) := entry in
       let runtimeName := runtimeNameOf runtime in
       flat_map
         (fun d : Simctl.Device =>
            if Simctl.isAvailable d then
              [ {| udid := Simctl.udid d;
                   name := Simctl.name d;
                   state := Simctl.state d;
                   runtime := runtimeName;
                   isAvailable := Simctl.isAvailable d |} ]
            else [])
         devices)
    (Simctl.devices data).

(** Sort: Booted first, then by iOS version (newest first), then by name. *)
Definition compareSimulators (a b : Simulator) : Z :=
  if (state a =? "Booted") && negb (state b =? "Booted") then (-1)%Z
  else if negb (state a =? "Booted") && (state b =? "Booted") then 1%Z
  else
    match versionMatch (runtime a), versionMatch (runtime b) with
    | Some (majorA, minorA), Some (majorB, minorB) =>
        let majorDiff := (parseInt majorB - parseInt majorA)%Z in
        if negb (majorDiff =? 0)%Z then majorDiff
        else
          let minorDiff := (parseInt minorB - parseInt minorA)%Z in
          if negb (minorDiff =? 0)%Z then minorDiff
          else localeCompare (name a) (name b)
    | _, _ => localeCompare (name a) (name b)
    end.

Definition listSimulators : Async (list Simulator) :=
  tryCatch
    (stdout <- execAsync "xcrun simctl list devices available --json" ;;
     data <- lift (parseSimctl stdout) ;;
     ret (sort compareSimulators (simulatorsOf data)))
    (fun _ =>
       throw {| message :=
                  Some "Failed to list simulators. Make sure Xcode is installed." |}).

End List.

End SimulatorList.

(** ** [path.join] of Node on a POSIX host *)
Module Path.
Import JsString.

(** The segments kept by [normalizeString], last one first. *)
Definition normalizeSegments (allowAboveRoot : bool) (segs : list string)
  : list string :=
  fold_left
    (fun res seg =>
       if (seg =? "") || (seg =? ".") then res
       else if seg =? ".." then
         match res with
         | lastSeg :: rest =>
             if lastSeg =? ".." then (if allowAboveRoot then ".." :: res else res)
             else rest
         | [] => if allowAboveRoot then [".."] else []
         end
       else seg :: res)
    segs [].

Definition endsWithSlash (s : string) : bool :=
  match last (list_ascii_of_string s) "a"%char with
  | "/"%char => true
  | _ => false
  end.

Definition normalize (path : string) : string :=
  match path with
  | EmptyString => "."
  | String c _ =>
      let isAbsolute := Ascii.eqb c "/" in
      let trailingSeparator := endsWithSlash path in
      let p := String.concat "/"
                 (rev (normalizeSegments (negb isAbsolute) (split "/" path))) in
      match p with
      | EmptyString =>
          if isAbsolute then "/" else if trailingSeparator then "./" else "."
      | _ =>
          let p := if trailingSeparator then p ++ "/" else p in
          if isAbsolute then "/" ++ p else p
      end
  end.

Definition join (args : list string) : string :=
  match filter truthy args with
  | [] => "."
  | parts => normalize (String.concat "/" parts)
  end.

End Path.

(** ** [xcode/build.ts] *)
Module Build.
Import JsString Regex.
Import Manager (Device).

Module ProjectType.
Inductive t := workspace | project.
End ProjectType.

Record XcodeProject := {
  path : string;
  name : string;
  type : ProjectType.t
}.

Record BuildOptions := {
  project : XcodeProject;
  scheme : string;
  device : Device;
  derivedDataPath : option string;
  clean : option bool
}.

Record BuildResult := {
  success : bool;
  appPath : option string;
  duration : Z;
  error : option string
}.

(** What the close listener reads from the host: two environment
    variables, and [fs.readdirSync], which lists a directory or throws. *)
Record Env := {
  HOME : option string;
  USER : option string;
  readdirSync : string -> option (list string)
}.

Definition isSimulator (d : Device) : bool :=
  Manager.DeviceType.eqb (Manager.type d) Manager.DeviceType.simulator.

(** The argument list handed to [xcodebuild]. *)
Definition xcodebuildArgs (options : BuildOptions) : list string :=
  let projectFlag :=
    match type (project options) with
    | ProjectType.workspace => "-workspace"
    | ProjectType.project => "-project"
    end in
  let destination :=
    if isSimulator (device options)
    then "platform=iOS Simulator,id=" ++ Manager.udid (device options)
    else "platform=iOS,id=" ++ Manager.udid (device options) in
  ([projectFlag; path (project options);
    "-scheme"; scheme options;
    "-destination"; destination;
    "-configuration"; "Debug";
    "-allowProvisioningUpdates"]
   ++ (match derivedDataPath options with
       | Some (String c d) => ["-derivedDataPath"; String c d]
       | _ => []
       end)
   ++ (match clean options with Some true => ["clean"] | _ => [] end)
   ++ ["build"])%list.

Section Session.
Variable A : Type.
Variable host : Env.
Variable options : BuildOptions.
(** [onProgress?], and [Date.now()] at the head of [build]. *)
Variable onProgress : option (string -> list A).
Variable startTime : Z.

(** The variables of one [build] call, whether the module holds a handle on
    the child, what the promise resolved to and what [onProgress] left
    behind.  The writes to the output channel are left out. *)
Record State := {
  currentBuildProcess : bool;
  lastPhase : string;
  errorOutput : string;
  buildOutput : string;
  notified : list A;
  resolved : option BuildResult
}.

(** Right after [spawn]. *)
Definition started : State :=
  {| currentBuildProcess := true;
     lastPhase := "";
     errorOutput := "";
     buildOutput := "";
     notified := [];
     resolved := None |}.

(** A promise keeps the first value it is resolved with. *)
Definition resolve (r : BuildResult) (st : State) : State :=
  {| currentBuildProcess := currentBuildProcess st;
     lastPhase := lastPhase st;
     errorOutput := errorOutput st;
     buildOutput := buildOutput st;
     notified := notified st;
     resolved := match resolved st with
                 | Some r0 => Some r0
                 | None => Some r
                 end |}.

Definition clearProcess (st : State) : State :=
  {| currentBuildProcess := false;
     lastPhase := lastPhase st;
     errorOutput := errorOutput st;
     buildOutput := buildOutput st;
     notified := notified st;
     resolved := resolved st |}.

(** [process.stdout.on('data', ...)] *)
Definition onStdout (text : string) (st : State) : State :=
  let buildOutput' := buildOutput st ++ text in
  match phaseMatch text with
  | Some phase =>
      if negb (phase =? lastPhase st) then
        {| currentBuildProcess := currentBuildProcess st;
           lastPhase := phase;
           errorOutput := errorOutput st;
           buildOutput := buildOutput';
           notified := (notified st ++
                        match onProgress with
                        | Some f => f (phase ++ "...")%string
                        | None => []
                        end)%list;
           resolved := resolved st |}
      else
        {| currentBuildProcess := currentBuildProcess st;
           lastPhase := lastPhase st;
           errorOutput := errorOutput st;
           buildOutput := buildOutput';
           notified := notified st;
           resolved := resolved st |}
  | None =>
      {| currentBuildProcess := currentBuildProcess st;
         lastPhase := lastPhase st;
         errorOutput := errorOutput st;
         buildOutput := buildOutput';
         notified := notified st;
         resolved := resolved st |}
  end.

(** [process.stderr.on('data', ...)] *)
Definition onStderr (text : string) (st : State) : State :=
  {| currentBuildProcess := currentBuildProcess st;
     lastPhase := lastPhase st;
     errorOutput := errorOutput st ++ text;
     buildOutput := buildOutput st;
     notified := notified st;
     resolved := resolved st |}.

Definition productDir : string :=
  if isSimulator (device options) then "Debug-iphonesimulator" else "Debug-iphoneos".

(** [HOME || '/Users/' + USER] *)
Definition homeDir : string :=
  orElse (HOME host)
         ("/Users/" ++ match USER host with Some u => u | None => "undefined" end).

Definition defaultDerivedData : string :=
  Path.join [homeDir; "Library/Developer/Xcode/DerivedData"].

(** The two fallbacks of the close listener, once the output gave no path. *)
Definition fallbackAppPath : option string :=
  match derivedDataPath options with
  | Some (String c d) =>
      Some (Path.join [String c d; "Build/Products"; productDir;
                       scheme options ++ ".app"])
  | _ =>
      match readdirSync host defaultDerivedData with
      | Some dirs =>
          match find (fun d => startsWith d (scheme options)
                               || startsWith d (name (project options))) dirs with
          | Some (String c projectDir) =>
              Some (Path.join [defaultDerivedData; String c projectDir;
                               "Build/Products"; productDir;
                               scheme options ++ ".app"])
          | _ => None
          end
      | None => None
      end
  end.

(** [process.on('close', code => ...)], at time [now].  [None] when the
    scheme gives a pattern outside the embedding. *)
Definition onClose (code : option Z) (now : Z) (st : State) : option State :=
  let st := clearProcess st in
  let duration := (now - startTime)%Z in
  match code with
  | Some 0%Z =>
      match appPathRegExp productDir (scheme options) with
      | None => None
      | Some re =>
          let appPath :=
            match re (buildOutput st) with
            | Some group1 => Some group1
            | None => fallbackAppPath
            end in
          Some (resolve {| success := true; appPath := appPath;
                           duration := duration; error := None |} st)
      end
  | _ =>
      Some (resolve {| success := false; appPath := None;
                       duration := duration;
                       error := Some (orElse (errorMatch (errorOutput st))
                                             "Build failed") |} st)
  end.

(** [process.on('error', err => ...)] with [err.message], at time [now]. *)
Definition onError (message : string) (now : Z) (st : State) : State :=
  resolve {| success := false; appPath := None;
             duration := (now - startTime)%Z;
             error := Some message |} (clearProcess st).

(** The events of the child, as the host delivers them. *)
Inductive Event :=
| Stdout (text : string)
| Stderr (text : string)
| Close (code : option Z) (now : Z)
| Failed (message : string) (now : Z).

Definition step (st : State) (ev : Event) : option State :=
  match ev with
  | Stdout text => Some (onStdout text st)
  | Stderr text => Some (onStderr text st)
  | Close code now => onClose code now st
  | Failed message now => Some (onError message now st)
  end.

Fixpoint run (evs : list Event) (st : State) : option State :=
  match evs with
  | [] => Some st
  | ev :: evs' =>
      match step st ev with
      | Some st' => run evs' st'
      | None => None
      end
  end.

(** [stopBuild()] *)
Definition stopBuild (st : State) : State * bool :=
  if currentBuildProcess st then (clearProcess st, true) else (st, false).

End Session.

End Build.


(** ** [xcode/project.ts] *)
Module Project.
Import JsString Host.

Record Scheme := { name : string }.

(** The shape read from [xcodebuild -list -json]. *)
Module ListJson.
Record Output := {
  workspace_schemes : option (list string);
  project_schemes : option (list string)
}.
End ListJson.

Definition isWorkspace (p : Build.XcodeProject) : bool :=
  match Build.type p with
  | Build.ProjectType.workspace => true
  | Build.ProjectType.project => false
  end.

(** [allProjects.some(p => p.name === proj.name && p.type === 'workspace')] *)
Definition hasWorkspace (allProjects : list Build.XcodeProject)
    (proj : Build.XcodeProject) : bool :=
  List.existsb (fun p => (Build.name p =? Build.name proj) && isWorkspace p)
               allProjects.

(** The last loop of [findXcodeProjects]: if both a workspace and a project
    of one name exist, prefer the workspace. *)
Definition preferWorkspaces (allProjects : list Build.XcodeProject)
  : list Build.XcodeProject :=
  flat_map
    (fun proj =>
       if negb (isWorkspace proj) then
         if negb (hasWorkspace allProjects proj) then [proj] else []
       else [proj])
    allProjects.

Section Find.
(** The walk of one workspace folder, [findXcodeProjectsInDir], is taken as
    it answers. *)
Variable findXcodeProjectsInDir : string -> list Build.XcodeProject.
Variable parseList : string -> Outcome ListJson.Output.

Local Open Scope async_scope.

Definition findXcodeProjects (workspaceFolders : option (list string))
  : list Build.XcodeProject :=
  match workspaceFolders with
  | None => []
  | Some folders => preferWorkspaces (flat_map findXcodeProjectsInDir folders)
  end.

Definition getSchemes (project : Build.XcodeProject) : Async (list Scheme) :=
  let flag := if isWorkspace project then "-workspace" else "-project" in
  tryCatch
    (stdout <- execAsync ("xcodebuild " ++ flag ++ " " ++ dq ++ Build.path project ++ dq
                          ++ " -list -json") ;;
     data <- lift (parseList stdout) ;;
     let schemeNames :=
       match (if isWorkspace project
              then ListJson.workspace_schemes data
              else ListJson.project_schemes data) with
       | Some names => names
       | None => []
       end in
     ret (map (fun name => {| name := name |}) schemeNames))
    (fun _ => ret []).

Definition getBundleIdentifier (project : Build.XcodeProject) (scheme : string)
    (derivedDataPath : string) : Async (option string) :=
  let appPath :=
    Path.join [derivedDataPath; "Build/Products/Debug-iphonesimulator";
               scheme ++ ".app"] in
  tryCatch
    (stdout <- execAsync ("defaults read " ++ dq ++ appPath ++ "/Info.plist" ++ dq
                          ++ " CFBundleIdentifier") ;;
     ret (Some (trim stdout)))
    (fun _ => ret None).

End Find.

End Project.

(** ** [extension.ts]: the device picker and the path handed on by [runApp] *)
Module Extension.
Import JsString.
Import Manager (Device).

(** An entry of the quick pick: a separator, or a device to choose. *)
Inductive Item :=
| Separator (label : string)
| Entry (label description : string) (detail : option string) (device : Device).

Definition isSimulator (d : Device) : bool :=
  Manager.DeviceType.eqb (Manager.type d) Manager.DeviceType.simulator.

Definition isRealDevice (d : Device) : bool :=
  Manager.DeviceType.eqb (Manager.type d) Manager.DeviceType.device.

(** [new Map<string, Device[]>()], in insertion order. *)
Definition Grouped : Type := list (string * list Device).

(** [grouped.has(version)] *)
Definition has (grouped : Grouped) (version : string) : bool :=
  List.existsb (fun e => fst e =? version) grouped.

(** [grouped.get(version)!.push(sim)] *)
Definition push (version : string) (sim : Device) (grouped : Grouped) : Grouped :=
  map (fun e => if fst e =? version then (fst e, (snd e ++ [sim])%list) else e)
      grouped.

(** The loop "Group by iOS version". *)
Definition groupByVersion (simulators : list Device) : Grouped :=
  fold_left
    (fun grouped sim =>
       let version := "iOS " ++ Manager.osVersion sim in
       let grouped :=
         if negb (has grouped version) then (grouped ++ [(version, [])])%list
         else grouped in
       push version sim grouped)
    simulators [].

Definition realDeviceItem (device : Device) : Item :=
  Entry ("$(plug) " ++ Manager.name device)
        ("iOS " ++ Manager.osVersion device)
        (Some (Manager.state device))
        device.

Definition simulatorItem (sim : Device) : Item :=
  let icon :=
    if Manager.state sim =? "Booted" then "$(vm-running)" else "$(device-mobile)" in
  Entry (icon ++ " " ++ Manager.name sim)
        (if Manager.state sim =? "Booted" then "Running" else "")
        None
        sim.

(** The items [selectDevice] shows for a non-empty list of devices. *)
Definition deviceItems (devices : list Device) : list Item :=
  let simulators := filter isSimulator devices in
  let realDevices := filter isRealDevice devices in
  ((if (0 <? List.length realDevices)%nat then
      Separator "Physical Devices" :: map realDeviceItem realDevices
    else [])
   ++
   (if (0 <? List.length simulators)%nat then
      Separator "Simulators"
      :: flat_map (fun e : string * list Device =>
                     Separator (fst e) :: map simulatorItem (snd e))
                  (groupByVersion simulators)
    else []))%list.

(** [appPath.replace(/\/Build\/Products\/.*/, '')]: the first
    "/Build/Products/" and the rest of its line are taken out. *)
Fixpoint derivedDataOf (appPath : string) : string :=
  match stripPrefix "/Build/Products/" appPath with
  | Some rest => dropWhile (fun c => negb (isLineTerminator c)) rest
  | None =>
      match appPath with
      | EmptyString => EmptyString
      | String c s' => String c (derivedDataOf s')
      end
  end.

End Extension.

(** ** Vocabulary of the statements *)
Module Spec.
Import JsString Regex.

(** [c] occurs in [s]. *)
Fixpoint existsb (f : ascii -> bool) (s : string) : bool :=
  match s with
  | EmptyString => false
  | String c s' => f c || existsb f s'
  end.

(** [s] is empty or begins with a character of class [f]. *)
Definition endOrNext (f : ascii -> bool) (s : string) : Prop :=
  s = "" \/ exists c r, s = String c r /\ f c = true.

(** A line with something other than white space on it. *)
Definition nonBlank (line : string) : bool :=
  existsb (fun c => negb (isWhiteSpace c)) line.

(** *** Target catalog *)
Import Manager.

Definition simctlCommand : string := "xcrun simctl list devices available --json".
Definition devicectlCommand : string :=
  "xcrun devicectl list devices --json-output /dev/stdout 2>/dev/null".
Definition xctraceCommand : string := "xcrun xctrace list devices 2>/dev/null".

(** A backend query fails: the command errors, or its output does not parse. *)
Definition queryFails {T} (parse : string -> Outcome T)
    (sh : Shell) (tr : list string) (cmd : string) : Prop :=
  match sh tr cmd with
  | Throw _ => True
  | Return out => match parse out with Throw _ => True | Return _ => False end
  end.

(** Three simulators as [simctl] lists them, one per runtime, none booted. *)
Definition sim (udid name state : string) : Simctl.Device :=
  {| Simctl.udid := udid; Simctl.name := name; Simctl.state := state;
     Simctl.isAvailable := true |}.

Definition threeRuntimes : Simctl.Output :=
  {| Simctl.devices :=
       [ ("com.apple.CoreSimulator.SimRuntime.iOS-17-0", [sim "A" "iPhone 15" "Shutdown"]);
         ("com.apple.CoreSimulator.SimRuntime.iOS-16-4", [sim "B" "iPhone 14" "Shutdown"]);
         ("com.apple.CoreSimulator.SimRuntime.iOS-17-2", [sim "C" "iPhone 15 Pro" "Shutdown"]) ] |}.

(** One runtime with a shut-down simulator listed before a booted one. *)
Definition bootedSecond : Simctl.Output :=
  {| Simctl.devices :=
       [ ("com.apple.CoreSimulator.SimRuntime.iOS-17-0",
          [sim "A" "iPhone 15" "Shutdown"; sim "B" "iPhone 15 Pro" "Booted"]) ] |}.

(** A host on which [simctl] answers and no physical-device tool exists. *)
Definition simctlOnly : Shell :=
  fun _ cmd =>
    if cmd =? simctlCommand then Return "{}"
    else Throw {| message := Some "command not found" |}.

(** *** Build session *)

(** A chunk of the child's output, on one of its two streams. *)
Inductive Chunk :=
| Out (text : string)
| Err (text : string).

Definition toEvent (c : Chunk) : Build.Event :=
  match c with
  | Out text => Build.Stdout text
  | Err text => Build.Stderr text
  end.

Fixpoint stdoutText (cs : list Chunk) : string :=
  match cs with
  | [] => ""
  | Out text :: cs' => text ++ stdoutText cs'
  | Err _ :: cs' => stdoutText cs'
  end.

Fixpoint stderrText (cs : list Chunk) : string :=
  match cs with
  | [] => ""
  | Out _ :: cs' => stderrText cs'
  | Err text :: cs' => text ++ stderrText cs'
  end.

(** The phase each stdout chunk shows, for the chunks that show one. *)
Fixpoint chunkPhases (cs : list Chunk) : list string :=
  match cs with
  | [] => []
  | Out text :: cs' =>
      match phaseMatch text with
      | Some k => k :: chunkPhases cs'
      | None => chunkPhases cs'
      end
  | Err _ :: cs' => chunkPhases cs'
  end.

(** The elements of [ps] that differ from the one before them, [prev]
    being before the first. *)
Fixpoint transitions (prev : string) (ps : list string) : list string :=
  match ps with
  | [] => []
  | k :: ps' => if k =? prev then transitions prev ps' else k :: transitions k ps'
  end.

(** [k] stands in [text] at the start of a line. *)
Definition atLineStart (text k : string) : Prop :=
  exists pre post,
    text = pre ++ k ++ post /\
    (pre = "" \/ exists pre' c, pre = pre' ++ String c "" /\ isLineTerminator c = true).

Definition notLineTerminator (c : ascii) : bool := negb (isLineTerminator c).

(** [msg] is the rest of the line after the first "error: " of [s] that
    has something after it on its line. *)
Definition FirstError (s msg : string) : Prop :=
  exists pre post,
    s = pre ++ "error: " ++ msg ++ post /\
    msg <> "" /\
    JsString.forallb notLineTerminator msg = true /\
    endOrNext isLineTerminator post /\
    forall pre' c r,
      s = pre' ++ "error: " ++ String c r ->
      (String.length pre' < String.length pre)%nat ->
      isLineTerminator c = true.

(** No "error: " of [s] has anything after it on its line. *)
Definition NoError (s : string) : Prop :=
  forall pre c r, s = pre ++ "error: " ++ String c r -> isLineTerminator c = true.


(** The callbacks of a caller that writes down what it is told. *)
Inductive Call :=
| OnLog (line : string)
| OnError (message : string)
| OnClose
| OnProgress (message : string).

(** What [onProgress] leaves behind when told the phases [ks] in turn. *)
Definition notifyAll {A} (onProgress : option (string -> list A))
    (ks : list string) : list A :=
  flat_map (fun k => match onProgress with
                     | Some f => f (k ++ "...")
                     | None => []
                     end) ks.




(** A build of scheme MyScheme for a simulator, on a host whose default
    DerivedData directory cannot be listed. *)
Definition sampleDevice : Device :=
  {| udid := "SIM-1"; name := "iPhone 15"; type := DeviceType.simulator;
     state := "Shutdown"; platform := "iOS Simulator"; osVersion := "17.0";
     isAvailable := true |}.

Definition sampleOptions : Build.BuildOptions :=
  {| Build.project := {| Build.path := "/work/MyApp.xcodeproj";
                         Build.name := "MyApp";
                         Build.type := Build.ProjectType.project |};
     Build.scheme := "MyScheme";
     Build.device := sampleDevice;
     Build.derivedDataPath := None;
     Build.clean := None |}.

Definition sampleHost : Build.Env :=
  {| Build.HOME := Some "/Users/dev"; Build.USER := Some "dev";
     Build.readdirSync := fun _ => None |}.

Definition recordProgress : option (string -> list Call) :=
  Some (fun message => [OnProgress message]).

(** A line of text, with its line feed. *)
Definition line (s : string) : string := s ++ String LF "".

(** *** Log stream session *)

(** The mode a call runs in: [mode = 'stdout'] when none is given. *)
Definition modeOf {A} (options : LogStreamOptions A) : LogMode :=
  match mode options with Some m => m | None => stdout end.

(** The listener lists of the children that one [startLogStream] call
    spawns, in spawn order, for the generation [gen] of the call. *)
Definition spawnedListeners {A} (options : LogStreamOptions A) (gen : Z)
  : list (list (EventName * Listener A)) :=
  match type (device options), modeOf options with
  | DeviceType.simulator, stdout => [consoleListeners gen stdout options]
  | DeviceType.simulator, both =>
      [consoleListeners gen both options; logListeners gen options]
  | DeviceType.simulator, system => [logListeners gen options]
  | DeviceType.device, _ => [logListeners gen options]
  end.

(** Child [pid] was spawned by the call that led from [w] to [w']. *)
Definition spawnedBetween {A} (w w' : World A) (pid : nat) : Prop :=
  (List.length (processes w) <= pid < List.length (processes w'))%nat.

(** No listener of the world changes the generation counter. *)
Definition keepsGeneration {A} (ls : list (EventName * Listener A)) : Prop :=
  forall ev payload g,
    logProcessId (fst (dispatch ls ev payload g)) = logProcessId g.

Definition wellFormed {A} (w : World A) : Prop :=
  Forall keepsGeneration (map listeners (processes w)).

(** Callbacks that write down their calls. *)
Definition recorder (d : Device) (m : option LogMode) : LogStreamOptions Call :=
  {| device := d; bundleId := "com.example.app"; mode := m;
     onLog := fun l => [OnLog l];
     onError := fun e => [OnError e];
     onClose := fun _ => [OnClose] |}.

Definition samplePhone : Device :=
  {| udid := "00008110-000A"; name := "My iPhone"; type := DeviceType.device;
     state := "Connected"; platform := "iOS"; osVersion := "17.2";
     isAvailable := true |}.

(** The message of a signing failure, as [xcodebuild] words it. *)
Definition signingMessage : string :=
  "Signing for " ++ dq ++ "MyApp" ++ dq ++ " requires a development team.".

End Spec.

(** ** Vocabulary of the further statements *)
Module Spec2.
Import JsString Regex Manager Spec.

(** How many handles of the module hold child [pid]. *)
Definition holds (g : Globals) (pid : nat) : nat :=
  ((if match stdoutLogProcess g with Some p => Nat.eqb p pid | None => false end
    then 1 else 0)
   + (if match logProcess g with Some p => Nat.eqb p pid | None => false end
      then 1 else 0))%nat.

(** The calls of [startLogStream] among [ops]. *)
Fixpoint starts {A} (ops : list (Op A)) : nat :=
  match ops with
  | [] => 0
  | Start _ :: ops' => S (starts ops')
  | _ :: ops' => starts ops'
  end.

(** The devices that the items of a quick pick offer. *)
Fixpoint offered (items : list Extension.Item) : list Device :=
  match items with
  | [] => []
  | Extension.Separator _ :: items' => offered items'
  | Extension.Entry _ _ _ d :: items' => d :: offered items'
  end.

(** The separators of a quick pick. *)
Fixpoint separators (items : list Extension.Item) : list string :=
  match items with
  | [] => []
  | Extension.Separator l :: items' => l :: separators items'
  | Extension.Entry _ _ _ _ :: items' => separators items'
  end.

(** No two neighbours of the list are equal. *)
Fixpoint noRepeat (l : list string) : Prop :=
  match l with
  | a :: (b :: _) as r => a <> b /\ noRepeat r
  | _ => True
  end.



(** [s] is made of white space only. *)
Definition allWhiteSpace (s : string) : bool := JsString.forallb isWhiteSpace s.

(** [s] neither starts nor ends with white space. *)
Definition trimmed (s : string) : Prop := trim s = s.

Definition allDigits (s : string) : bool := JsString.forallb isDigit s.


(** A caller that keeps the progress messages. *)
Definition keepMessages : option (string -> list string) :=
  Some (fun message => [message]).

(** The label under which the picker groups a simulator. *)
Definition versionOf (d : Device) : string := "iOS " ++ osVersion d.

(** One turn of the grouping loop. *)
Definition addSimulator (grouped : Extension.Grouped) (sim : Device)
  : Extension.Grouped :=
  Extension.push (versionOf sim) sim
    (if negb (Extension.has grouped (versionOf sim))
     then (grouped ++ [(versionOf sim, [])])%list
     else grouped).

(** The simulators of [done] that belong under label [v], in their order. *)
Definition under (v : string) (done : list Device) : list Device :=
  filter (fun d => versionOf d =? v) done.

(** What the grouping loop keeps true of the groups built from [done]. *)
Definition groupsOf (done : list Device) (g : Extension.Grouped) : Prop :=
  NoDup (map fst g) /\
  (forall d, In d done -> In (versionOf d) (map fst g)) /\
  Forall (fun e => snd e <> [] /\ snd e = under (fst e) done) g /\
  Permutation (List.concat (map snd g)) done.

(** What the last step of [findXcodeProjects] keeps. *)
Definition keptProject (all : list Build.XcodeProject) (p : Build.XcodeProject) : bool :=
  Project.isWorkspace p || negb (Project.hasWorkspace all p).

(** [s] does not start with white space. *)
Definition headNotSpace (s : string) : Prop :=
  s = "" \/ exists c r, s = String c r /\ isWhiteSpace c = false.

(** The outcome of a command, its output dropped. *)
Definition finish (o : Outcome string) : Outcome unit :=
  match o with
  | Return _ => Return tt
  | Throw e => Throw e
  end.

(** A host for the examples: every command fails. *)
Definition noTools : Shell :=
  fun _ _ => Throw {| message := Some "command not found" |}.

(** A host on which only the commands of [ios-deploy] work. *)
Definition iosDeployOnly : Shell :=
  fun _ cmd =>
    if startsWith cmd "ios-deploy" then Return ""
    else Throw {| message := Some "devicectl: not supported" |}.

End Spec2.

(** * Facts about the string primitives *)
Section StringFacts.
Import JsString Spec.

Lemma append_nil_r (s : string) : s ++ "" = s.
Proof. induction s as [|c s IH]; simpl; [reflexivity | now rewrite IH]. Qed.

Lemma append_assoc (a b c : string) : (a ++ b) ++ c = a ++ (b ++ c).
Proof. induction a as [|x a IH]; simpl; [reflexivity | now rewrite IH]. Qed.

Lemma length_append (a b : string) :
  String.length (a ++ b) = (String.length a + String.length b)%nat.
Proof. induction a as [|x a IH]; simpl; [reflexivity | now rewrite IH]. Qed.


Lemma stripPrefix_spec (p s r : string) :
  stripPrefix p s = Some r <-> s = p ++ r.
Proof.
  revert s. induction p as [|a p IH]; intros s; simpl.
  - split; intros H; [now injection H as -> | now subst].
  - destruct s as [|b s]; [split; discriminate|].
    destruct (Ascii.eqb_spec a b) as [->|Hne].
    + rewrite IH. split; intros H; [now subst | now injection H].
    + split; [discriminate | intros H; injection H as E _; now elim Hne].
Qed.

Lemma stripPrefix_append (p r : string) : stripPrefix p (p ++ r) = Some r.
Proof. now apply stripPrefix_spec. Qed.

Lemma stripPrefix_prefix (p s : string) :
  String.prefix p s = match stripPrefix p s with Some _ => true | None => false end.
Proof.
  revert s. induction p as [|a p IH]; intros s; simpl.
  - now destruct s.
  - destruct s as [|b s]; simpl; [reflexivity|].
    destruct (ascii_dec a b) as [->|Hne].
    + rewrite Ascii.eqb_refl. apply IH.
    + destruct (Ascii.eqb_spec a b); [contradiction | reflexivity].
Qed.

Lemma startsWith_spec (s p : string) :
  startsWith s p = true <-> exists r, s = p ++ r.
Proof.
  unfold startsWith. rewrite stripPrefix_prefix.
  destruct (stripPrefix p s) as [r|] eqn:E.
  - apply stripPrefix_spec in E. split; [now exists r | reflexivity].
  - split; [discriminate|]. intros [r Hr].
    apply stripPrefix_spec in Hr. congruence.
Qed.

Lemma includes_spec (s p : string) :
  includes s p = true <-> exists pre post, s = pre ++ p ++ post.
Proof.
  induction s as [|c s IH]; cbn [includes].
  - rewrite orb_false_r, startsWith_spec. split.
    + intros [r Hr]. now exists "", r.
    + intros [pre [post H]]. destruct pre; [now exists post | discriminate].
  - rewrite orb_true_iff, startsWith_spec, IH. split.
    + intros [[r Hr] | [pre [post H]]].
      * now exists "", r.
      * exists (String c pre), post. simpl. now rewrite H.
    + intros [pre [post H]]. destruct pre as [|x pre]; simpl in H.
      * left. now exists post.
      * right. injection H as _ H. now exists pre, post.
Qed.

Lemma takeWhile_dropWhile (f : ascii -> bool) (s : string) :
  s = takeWhile f s ++ dropWhile f s.
Proof.
  induction s as [|c s IH]; simpl; [reflexivity|].
  destruct (f c); simpl; [now rewrite <- IH | reflexivity].
Qed.

Lemma takeWhile_forallb (f : ascii -> bool) (s : string) :
  JsString.forallb f (takeWhile f s) = true.
Proof.
  induction s as [|c s IH]; simpl; [reflexivity|].
  destruct (f c) eqn:E; simpl; [now rewrite E | reflexivity].
Qed.

Lemma dropWhile_next (f : ascii -> bool) (s : string) :
  endOrNext (fun c => negb (f c)) (dropWhile f s).
Proof.
  induction s as [|c s IH]; simpl; [now left|].
  destruct (f c) eqn:E; [exact IH|].
  right. exists c, s. now rewrite E.
Qed.

Lemma takeWhile_append (f : ascii -> bool) (m post : string) :
  JsString.forallb f m = true -> endOrNext (fun c => negb (f c)) post ->
  takeWhile f (m ++ post) = m.
Proof.
  intros Hm Hpost. induction m as [|c m IH]; simpl in *.
  - destruct Hpost as [->|[c [r [-> Hc]]]]; simpl; [reflexivity|].
    apply negb_true_iff in Hc. now rewrite Hc.
  - apply andb_true_iff in Hm as [Hc Hm]. rewrite Hc, IH; auto.
Qed.

(** [trim] leaves something exactly when the line is not blank. *)
Lemma trimEnd_truthy (s : string) :
  truthy (trimEnd s) = nonBlank s.
Proof.
  unfold nonBlank. induction s as [|c s IH]; simpl; [reflexivity|].
  destruct (trimEnd s) eqn:E; simpl in *.
  - rewrite <- IH, orb_false_r. now destruct (isWhiteSpace c).
  - rewrite <- IH. now rewrite orb_true_r.
Qed.

Lemma trim_truthy (s : string) : truthy (trim s) = nonBlank s.
Proof.
  unfold trim. rewrite trimEnd_truthy. unfold nonBlank.
  induction s as [|c s IH]; simpl; [reflexivity|].
  destruct (isWhiteSpace c) eqn:E; simpl; [exact IH | now rewrite E].
Qed.

End StringFacts.

(** * Device session *)
Section DeviceSessionFacts.
Import JsString Manager.

(** C8. [bootSimulator] runs the boot command once.  When the command
    succeeds it returns; when it fails, the error is swallowed exactly when
    its message contains "Unable to boot device in current state: Booted",
    and is rethrown unchanged otherwise.  So booting a target that the
    backend reports as already booted does not raise. *)
Theorem bootSimulator_already_booted :
  forall (sh : Shell) (tr : list string) (udid : string),
    let cmd := "xcrun simctl boot " ++ dq ++ udid ++ dq in
    let alreadyBooted (e : Error) :=
      exists m pre post,
        message e = Some m /\
        m = pre ++ "Unable to boot device in current state: Booted" ++ post in
    fst (bootSimulator udid sh tr) = (tr ++ [cmd])%list /\
    match sh tr cmd with
    | Return _ => snd (bootSimulator udid sh tr) = Return tt
    | Throw e =>
        (alreadyBooted e -> snd (bootSimulator udid sh tr) = Return tt) /\
        (~ alreadyBooted e -> snd (bootSimulator udid sh tr) = Throw e)
    end.
Proof.
  intros sh tr udid cmd alreadyBooted.
  unfold bootSimulator, tryCatch, bind, execAsync, ret, throw. fold cmd.
  destruct (sh tr cmd) as [out|e] eqn:Hsh; simpl; [now split|].
  assert (Hiff : messageIncludes e "Unable to boot device in current state: Booted" = true
                 <-> alreadyBooted e).
  { unfold messageIncludes, alreadyBooted. destruct (message e) as [m|].
    - rewrite includes_spec. split.
      + intros [pre [post H]]. now exists m, pre, post.
      + intros [m' [pre [post [Hm H]]]]. injection Hm as <-. now exists pre, post.
    - split; [discriminate|]. intros [m [_ [_ [Hm _]]]]. discriminate. }
  destruct (messageIncludes e _) eqn:Hinc; simpl;
    (split; [reflexivity|]); split; intros H; try reflexivity.
  - elim H. now apply Hiff.
  - apply Hiff in H. discriminate.
Qed.

(** C10. [terminateApp] returns normally whatever the device and whatever
    the terminate command does: on a simulator the command is run once and
    any error it raises is swallowed; on a physical device no command is
    run at all. *)
Theorem terminateApp_never_raises :
  forall (sh : Shell) (tr : list string) (d : Device) (bundleId : string),
    snd (terminateApp d bundleId sh tr) = Return tt /\
    match type d with
    | DeviceType.simulator =>
        fst (terminateApp d bundleId sh tr)
        = (tr ++ [("xcrun simctl terminate " ++ dq ++ udid d ++ dq
                   ++ " " ++ dq ++ bundleId ++ dq)%string])%list
    | DeviceType.device => fst (terminateApp d bundleId sh tr) = tr
    end.
Proof.
  intros sh tr d bundleId.
  unfold terminateApp, tryCatch, bind, execAsync, ret.
  destruct (type d); simpl.
  - destruct (sh tr _); simpl; now split.
  - now split.
Qed.

End DeviceSessionFacts.

(** * Target catalog *)
Section CatalogFacts.
Import JsString Manager Spec.

Variable parseSimctl : string -> Outcome Simctl.Output.
Variable parseDevicectl : string -> Outcome Devicectl.Output.
Variable xctraceLine : string -> option (string * string * string).

Abbreviation listSimulators := (Manager.listSimulators parseSimctl).
Abbreviation listDevicesWithDevicectl := (Manager.listDevicesWithDevicectl parseDevicectl).
Abbreviation listDevicesWithInstruments := (Manager.listDevicesWithInstruments xctraceLine).
Abbreviation listRealDevices := (Manager.listRealDevices parseDevicectl xctraceLine).
Abbreviation listAllDevices := (Manager.listAllDevices parseSimctl parseDevicectl xctraceLine).

Lemma listSimulators_returns (sh : Shell) (tr : list string) :
  exists sims,
    listSimulators sh tr = ((tr ++ [simctlCommand])%list, Return sims) /\
    (queryFails parseSimctl sh tr simctlCommand -> sims = []).
Proof.
  unfold Manager.listSimulators, tryCatch, bind, execAsync, lift, ret, queryFails.
  fold simctlCommand.
  destruct (sh tr simctlCommand) as [out|e]; simpl.
  - destruct (parseSimctl out) as [data|e]; simpl; eexists; split; eauto.
    intros [].
  - eexists; split; eauto.
Qed.

Lemma listDevicesWithDevicectl_returns (sh : Shell) (tr : list string) :
  exists ds,
    listDevicesWithDevicectl sh tr = ((tr ++ [devicectlCommand])%list, Return ds) /\
    (queryFails parseDevicectl sh tr devicectlCommand -> ds = []).
Proof.
  unfold Manager.listDevicesWithDevicectl, tryCatch, bind, execAsync, lift, ret,
    queryFails.
  fold devicectlCommand.
  destruct (sh tr devicectlCommand) as [out|e]; simpl.
  - destruct (parseDevicectl out) as [data|e]; simpl; eexists; split; eauto.
    intros [].
  - eexists; split; eauto.
Qed.

Lemma listDevicesWithInstruments_returns (sh : Shell) (tr : list string) :
  exists ds,
    listDevicesWithInstruments sh tr = ((tr ++ [xctraceCommand])%list, Return ds) /\
    (queryFails (@Return string) sh tr xctraceCommand -> ds = []).
Proof.
  unfold Manager.listDevicesWithInstruments, tryCatch, bind, execAsync, ret, queryFails.
  fold xctraceCommand.
  destruct (sh tr xctraceCommand) as [out|e]; simpl; eexists; split; eauto.
  intros [].
Qed.

Lemma listRealDevices_returns (sh : Shell) (tr : list string) :
  exists reals,
    snd (listRealDevices sh tr) = Return reals /\
    (queryFails parseDevicectl sh tr devicectlCommand ->
     queryFails (@Return string) sh (tr ++ [devicectlCommand])%list xctraceCommand ->
     reals = []).
Proof.
  unfold Manager.listRealDevices, tryCatch, bind.
  destruct (listDevicesWithDevicectl_returns sh tr) as [ds [-> Hds]].
  destruct ds as [|d ds]; simpl.
  - destruct (listDevicesWithInstruments_returns sh (tr ++ [devicectlCommand])%list)
      as [ds' [-> Hds']].
    simpl. exists ds'. split; auto.
  - unfold ret. simpl. exists (d :: ds). split; [reflexivity|].
    intros H _. exact (Hds H).
Qed.

(** C6. [listAllDevices] always returns: its result is the simulators
    followed by the physical devices, each part computed on its own.  When
    the simulator query fails (the command errors or its output does not
    parse) the simulator part is empty and the physical devices are still
    returned; when both physical-device queries fail the physical part is
    empty and the simulators are still returned. *)
Theorem listAllDevices_never_aborts :
  forall (sh : Shell) (tr : list string),
    let tr1 := (tr ++ [simctlCommand])%list in
    exists sims reals,
      snd (listAllDevices sh tr) = Return (sims ++ reals)%list /\
      listSimulators sh tr = (tr1, Return sims) /\
      snd (listRealDevices sh tr1) = Return reals /\
      (queryFails parseSimctl sh tr simctlCommand -> sims = []) /\
      (queryFails parseDevicectl sh tr1 devicectlCommand ->
       queryFails (@Return string) sh (tr1 ++ [devicectlCommand])%list xctraceCommand ->
       reals = []).
Proof.
  intros sh tr tr1.
  destruct (listSimulators_returns sh tr) as [sims [Hs Hsf]].
  destruct (listRealDevices_returns sh tr1) as [reals [Hr Hrf]].
  exists sims, reals. repeat split; auto.
  unfold Manager.listAllDevices, bind. rewrite Hs. fold tr1.
  destruct (listRealDevices sh tr1) as [tr2 o]. simpl in Hr. now subst o.
Qed.

End CatalogFacts.

Section CatalogOrder.
Import JsString Manager Spec.

(** C2. [listAllDevices] leaves the simulators in the order in which the
    backend lists them.  With the runtimes 17.0, 16.4 and 17.2 listed in
    that order and nothing booted, the catalog comes out as 17.0, 16.4,
    17.2 and not as 17.2, 17.0, 16.4; a shut-down simulator listed before a
    booted one stays before it. *)
Theorem listAllDevices_keeps_backend_order :
  (let catalog :=
     snd (listAllDevices (fun _ => Return threeRuntimes)
            (fun _ => Throw {| message := None |}) (fun _ => None)
            simctlOnly []) in
   exists ds,
     catalog = Return ds /\
     map osVersion ds = ["17.0"; "16.4"; "17.2"] /\
     map osVersion ds <> ["17.2"; "17.0"; "16.4"]) /\
  (let catalog :=
     snd (listAllDevices (fun _ => Return bootedSecond)
            (fun _ => Throw {| message := None |}) (fun _ => None)
            simctlOnly []) in
   exists ds,
     catalog = Return ds /\
     map state ds = ["Shutdown"; "Booted"]).
Proof.
  split; eexists; (split; [reflexivity|]).
  - split; [reflexivity | discriminate].
  - reflexivity.
Qed.

(** The older listing of [simulator/list.ts] sorts what it returns: on the
    same three runtimes it answers 17.2, 17.0, 16.4, whatever the collation,
    and it puts a booted simulator first. *)
Lemma legacy_listSimulators_sorts (localeCompare : string -> string -> Z) :
  (exists sims,
      snd (SimulatorList.listSimulators (fun _ => Return threeRuntimes)
             localeCompare simctlOnly []) = Return sims /\
      map SimulatorList.runtime sims = ["iOS 17.2"; "iOS 17.0"; "iOS 16.4"]) /\
  (exists sims,
      snd (SimulatorList.listSimulators (fun _ => Return bootedSecond)
             localeCompare simctlOnly []) = Return sims /\
      map SimulatorList.state sims = ["Booted"; "Shutdown"]).
Proof. split; eexists; split; reflexivity. Qed.

End CatalogOrder.

(** * The patterns find what they describe *)
Section RegexFacts.
Import JsString Regex Spec.

Lemma phaseHere_spec (s k : string) :
  phaseHere s = Some k -> In k phases /\ exists post, s = k ++ post.
Proof.
  unfold phaseHere. intros H. apply find_some in H as [Hin Hp].
  split; [exact Hin | now apply startsWith_spec].
Qed.

Lemma phaseFrom_spec (s k : string) (b : bool) :
  phaseFrom b s = Some k ->
  In k phases /\
  exists pre post,
    s = pre ++ k ++ post /\
    ((pre = "" /\ b = true) \/
     exists pre' c, pre = pre' ++ String c "" /\ isLineTerminator c = true).
Proof.
  revert b. induction s as [|c s IH]; intros b; cbn [phaseFrom].
  - destruct b; [|discriminate].
    destruct (phaseHere "") as [k'|] eqn:E; [|discriminate].
    intros H. injection H as ->. apply phaseHere_spec in E as [Hin [post Hp]].
    split; [exact Hin|]. exists "", post. auto.
  - destruct (if b then phaseHere (String c s) else None) as [k'|] eqn:E.
    + intros H. injection H as ->. destruct b; [|discriminate].
      apply phaseHere_spec in E as [Hin [post Hp]].
      split; [exact Hin|]. exists "", post. auto.
    + intros H. apply IH in H as [Hin [pre [post [Hs Hpre]]]].
      split; [exact Hin|]. exists (String c pre), post. split.
      * simpl. now rewrite Hs.
      * right. destruct Hpre as [[-> Hb] | [pre' [c' [-> Hc']]]].
        -- now exists "", c.
        -- now exists (String c pre'), c'.
Qed.

(** The phase of a chunk is one of the eight keywords and stands at the
    start of the chunk or right after a line terminator in it. *)
Lemma phaseMatch_spec (text k : string) :
  phaseMatch text = Some k -> In k phases /\ atLineStart text k.
Proof.
  intros H. apply phaseFrom_spec in H as [Hin [pre [post [Hs Hpre]]]].
  split; [exact Hin|]. exists pre, post. split; [exact Hs|].
  destruct Hpre as [[-> _] | H]; auto.
Qed.

Lemma errorHere_sound (s m : string) :
  errorHere s = Some m ->
  exists post,
    s = "error: " ++ m ++ post /\ m <> "" /\
    JsString.forallb notLineTerminator m = true /\
    endOrNext isLineTerminator post.
Proof.
  unfold errorHere. destruct (stripPrefix "error: " s) as [rest|] eqn:E; [|discriminate].
  apply stripPrefix_spec in E.
  pose proof (takeWhile_dropWhile notLineTerminator rest) as Hsplit.
  pose proof (takeWhile_forallb notLineTerminator rest) as Hall.
  pose proof (dropWhile_next notLineTerminator rest) as Hnext.
  fold notLineTerminator.
  destruct (takeWhile notLineTerminator rest) as [|c t] eqn:Et; [discriminate|].
  intros H. injection H as <-.
  exists (dropWhile notLineTerminator rest). repeat split.
  - rewrite E. now rewrite <- Hsplit.
  - discriminate.
  - exact Hall.
  - destruct Hnext as [Hn | [c' [r [Hn Hc']]]]; [now left|].
    right. exists c', r. split; [exact Hn|].
    unfold notLineTerminator in Hc'. now apply negb_true_iff, negb_false_iff in Hc'.
Qed.

Lemma errorHere_none (s : string) (c : ascii) (r : string) :
  errorHere s = None -> s = "error: " ++ String c r -> isLineTerminator c = true.
Proof.
  unfold errorHere. intros H ->. rewrite stripPrefix_append in H.
  cbn [takeWhile] in H. destruct (isLineTerminator c); [reflexivity|].
  simpl in H. discriminate.
Qed.

Lemma errorMatch_sound (s m : string) :
  errorMatch s = Some m -> FirstError s m.
Proof.
  induction s as [|x s IH]; cbn [errorMatch].
  - destruct (errorHere "") as [m'|] eqn:E; [|discriminate].
    intros H. injection H as ->.
    apply errorHere_sound in E as [post [Hs [Hm [Hall Hpost]]]].
    exists "", post. repeat split; auto.
    intros pre' c r _ Hlt. simpl in Hlt. lia.
  - destruct (errorHere (String x s)) as [m'|] eqn:E.
    + intros H. injection H as ->.
      apply errorHere_sound in E as [post [Hs [Hm [Hall Hpost]]]].
      exists "", post. repeat split; auto.
      intros pre' c r _ Hlt. simpl in Hlt. lia.
    + intros H. apply IH in H as [pre [post [Hs [Hm [Hall [Hpost Hfirst]]]]]].
      exists (String x pre), post. repeat split; auto.
      * simpl. now rewrite Hs.
      * intros pre' c r Hs' Hlt. destruct pre' as [|y pre'].
        -- exact (errorHere_none _ _ _ E Hs').
        -- simpl in Hs', Hlt. injection Hs' as _ Hs'.
           apply (Hfirst pre' c r Hs'). lia.
Qed.

Lemma errorMatch_none (s : string) : errorMatch s = None -> NoError s.
Proof.
  unfold NoError. induction s as [|x s IH]; cbn [errorMatch].
  - destruct (errorHere "") eqn:E; [discriminate|].
    intros _ pre c r Hs. destruct pre; discriminate.
  - destruct (errorHere (String x s)) eqn:E; [discriminate|].
    intros H pre c r Hs. destruct pre as [|y pre].
    + exact (errorHere_none _ _ _ E Hs).
    + simpl in Hs. injection Hs as _ Hs. exact (IH H pre c r Hs).
Qed.








End RegexFacts.

(** * Build session *)
Section BuildFacts.
Import JsString Regex Spec.

Variable A : Type.
Variable host : Build.Env.
Variable options : Build.BuildOptions.
Variable onProgress : option (string -> list A).
Variable startTime : Z.

Abbreviation run := (Build.run A host options onProgress startTime).
Abbreviation started := (Build.started A).

Lemma run_app (evs1 evs2 : list Build.Event) (st : Build.State A) :
  run (evs1 ++ evs2)%list st =
  match run evs1 st with
  | Some st' => run evs2 st'
  | None => None
  end.
Proof.
  revert st. induction evs1 as [|ev evs1 IH]; intros st; simpl; [reflexivity|].
  destruct (Build.step A host options onProgress startTime st ev); auto.
Qed.

(** The data events only accumulate text and tell the phase transitions. *)
Lemma run_chunks (chunks : list Chunk) (st : Build.State A) :
  exists st',
    run (map toEvent chunks) st = Some st' /\
    Build.buildOutput A st' = Build.buildOutput A st ++ stdoutText chunks /\
    Build.errorOutput A st' = Build.errorOutput A st ++ stderrText chunks /\
    Build.resolved A st' = Build.resolved A st /\
    Build.notified A st'
    = (Build.notified A st
       ++ notifyAll onProgress
            (transitions (Build.lastPhase A st) (chunkPhases chunks)))%list.
Proof.
  revert st. induction chunks as [|c chunks IH]; intros st.
  - exists st. simpl. rewrite !append_nil_r, app_nil_r. auto.
  - destruct c as [text|text]; cbn [map toEvent Build.run Build.step].
    + destruct (IH (Build.onStdout A onProgress text st))
        as [st' [Hrun [Hout [Herr [Hres Hnot]]]]].
      exists st'. split; [exact Hrun|].
      rewrite Hout, Herr, Hres, Hnot. clear.
      cbn [stdoutText stderrText chunkPhases]. unfold Build.onStdout.
      destruct (phaseMatch text) as [k|]; cbn [transitions].
      * destruct (k =? Build.lastPhase A st) eqn:Ek; simpl;
          rewrite ?append_assoc; repeat split; auto.
        unfold notifyAll. cbn [flat_map]. now rewrite app_assoc.
      * simpl. rewrite append_assoc. auto.
    + destruct (IH (Build.onStderr A text st))
        as [st' [Hrun [Hout [Herr [Hres Hnot]]]]].
      exists st'. split; [exact Hrun|].
      rewrite Hout, Herr, Hres, Hnot. simpl. rewrite append_assoc. auto.
Qed.


(** C7. When the child closes with a code other than 0 (or with none), the
    build resolves to a failure without an app path.  Its error is the rest
    of the line after the first "error: " of the accumulated stderr that has
    something after it on its line; when stderr has no such place, the error
    is "Build failed". *)
Theorem build_failure_reports_first_error :
  forall (chunks : list Chunk) (code : option Z) (now : Z),
    code <> Some 0%Z ->
    exists st r,
      run (map toEvent chunks ++ [Build.Close code now])%list started = Some st /\
      Build.resolved A st = Some r /\
      Build.success r = false /\
      Build.appPath r = None /\
      Build.duration r = (now - startTime)%Z /\
      ((exists msg, Build.error r = Some msg /\ FirstError (stderrText chunks) msg)
       \/ (Build.error r = Some "Build failed" /\ NoError (stderrText chunks))).
Proof.
  intros chunks code now Hcode. rewrite run_app.
  destruct (run_chunks chunks started) as [st [-> [_ [Herr [Hres _]]]]].
  simpl in Herr, Hres. cbn [Build.run Build.step]. unfold Build.onClose.
  set (failure := Build.resolve A
         {| Build.success := false; Build.appPath := None;
            Build.duration := (now - startTime)%Z;
            Build.error := Some (orElse (errorMatch
                              (Build.errorOutput A (Build.clearProcess A st)))
                              "Build failed") |}
         (Build.clearProcess A st)).
  assert (Hfail : exists r,
             Build.resolved A failure = Some r /\
             Build.success r = false /\ Build.appPath r = None /\
             Build.duration r = (now - startTime)%Z /\
             ((exists msg, Build.error r = Some msg
                           /\ FirstError (stderrText chunks) msg)
              \/ (Build.error r = Some "Build failed"
                  /\ NoError (stderrText chunks)))).
  { unfold failure, Build.resolve. cbn. rewrite Hres, Herr.
    eexists. split; [reflexivity|]. cbn. repeat split.
    destruct (errorMatch (stderrText chunks)) as [m|] eqn:Em.
    - pose proof (errorMatch_sound _ _ Em) as Hm. left. exists m. split; [|exact Hm].
      destruct Hm as [_ [_ [_ [Hne _]]]]. destruct m; [contradiction | reflexivity].
    - right. split; [reflexivity | now apply errorMatch_none]. }
  destruct Hfail as [r Hr].
  destruct code as [z|].
  - destruct z; [contradiction | |]; exists failure, r; (split; [reflexivity | exact Hr]).
  - exists failure, r. split; [reflexivity | exact Hr].
Qed.




End BuildFacts.

Section BuildExamples.
Import JsString Regex Spec.


Lemma build_failure_witness :
  Some 1%Z <> Some 0%Z /\
  exists st r,
    Build.run Call sampleHost sampleOptions recordProgress 1000
      (map toEvent [Err (line ("error: " ++ signingMessage))]
       ++ [Build.Close (Some 1%Z) 1500])%list
      (Build.started Call) = Some st /\
    Build.resolved Call st = Some r /\
    Build.success r = false /\
    Build.error r = Some signingMessage.
Proof.
  split; [discriminate|].
  destruct (build_failure_reports_first_error Call sampleHost sampleOptions
              recordProgress 1000 [Err (line ("error: " ++ signingMessage))]
              (Some 1%Z) 1500) as [st [r [Hrun [Hres [Hok _]]]]]; [discriminate|].
  exists st, r. split; [exact Hrun|]. split; [exact Hres|]. split; [exact Hok|].
  vm_compute in Hrun. injection Hrun as <-.
  vm_compute in Hres. injection Hres as <-. reflexivity.
Defined.


End BuildExamples.

(** * Log stream session *)
Section LogStreamFacts.
Import JsString Manager Spec.

Variable A : Type.
Implicit Types (w : World A) (o : LogStreamOptions A).
Implicit Types (ls : list (EventName * Listener A)).

Local Arguments onAll : simpl never.
Local Arguments consoleListeners : simpl never.
Local Arguments logListeners : simpl never.

Lemma updateAt_length {T} (f : T -> T) (n : nat) (l : list T) :
  List.length (updateAt f n l) = List.length l.
Proof.
  revert n. induction l as [|x l IH]; intros [|n]; simpl; auto.
Qed.

Lemma updateAt_here {T} (f : T -> T) (l r : list T) (x : T) :
  updateAt f (List.length l) (l ++ x :: r)%list = (l ++ f x :: r)%list.
Proof. induction l as [|y l IH]; simpl; [reflexivity | now rewrite IH]. Qed.

Lemma updateAt_map {T U} (h : T -> U) (f : T -> T) (n : nat) (l : list T) :
  (forall x, h (f x) = h x) -> map h (updateAt f n l) = map h l.
Proof.
  intros Hf. revert n. induction l as [|x l IH]; intros [|n]; simpl; auto.
  - now rewrite Hf.
  - now rewrite IH.
Qed.

Lemma kill_listeners (pid : nat) (sig : string) w :
  map listeners (processes (kill pid sig w)) = map listeners (processes w).
Proof. unfold kill. simpl. now apply updateAt_map. Qed.

Lemma kill_length (pid : nat) (sig : string) w :
  List.length (processes (kill pid sig w)) = List.length (processes w).
Proof. unfold kill. simpl. apply updateAt_length. Qed.

(** [stopLogStream] clears both handles and touches neither the generation
    nor any listener. *)
Lemma stopLogStream_spec w :
  let w' := fst (stopLogStream w) in
  logProcessId (globals w') = logProcessId (globals w) /\
  logProcess (globals w') = None /\
  stdoutLogProcess (globals w') = None /\
  map listeners (processes w') = map listeners (processes w) /\
  List.length (processes w') = List.length (processes w).
Proof.
  destruct w as [[lp id slp] procs]. unfold stopLogStream.
  destruct slp as [p|]; destruct lp as [q|]; simpl;
    rewrite ?updateAt_length; repeat split;
    rewrite ?(updateAt_map (@listeners A)); auto.
Qed.

Lemma onAll_spawned (g : Globals) (l r : list (ChildProcess A))
    (x : ChildProcess A) ls :
  onAll (List.length l) ls {| globals := g; processes := (l ++ x :: r)%list |}
  = {| globals := g;
       processes := (l ++ {| spawnfile := spawnfile x; spawnargs := spawnargs x;
                             signals := signals x;
                             listeners := (listeners x ++ ls)%list |} :: r)%list |}.
Proof.
  unfold onAll. revert x. induction ls as [|el ls IH]; intros x; simpl.
  - destruct x. simpl. now rewrite app_nil_r.
  - unfold on at 2. simpl. rewrite updateAt_here, IH. simpl.
    destruct el. simpl. now rewrite <- app_assoc.
Qed.

(** What a call of [startLogStream] does to the generation and to the
    listeners: it advances the one and adds those of the children it
    spawns, leaving the others as they are. *)
Lemma startLogStream_spec o w :
  let gen := increment (logProcessId (globals w)) in
  let w1 := fst (startLogStream o w) in
  logProcessId (globals w1) = gen /\
  map listeners (processes w1)
  = (map listeners (processes w) ++ spawnedListeners o gen)%list.
Proof.
  intros gen w1. subst gen w1. unfold startLogStream.
  destruct (stopLogStream_spec w) as (Hid & _ & _ & Hls & _).
  destruct (fst (stopLogStream w)) as [[lp0 id0 slp0] l0]. simpl in Hid, Hls.
  subst id0. rewrite <- Hls. clear Hls.
  unfold spawnedListeners, modeOf, spawn, setLogProcessId, setStdoutLogProcess,
    setLogProcess.
  destruct (type (device o)); destruct (mode o) as [[]|];
    cbn -[onAll logListeners consoleListeners increment];
    rewrite ?onAll_spawned;
    cbn -[onAll logListeners consoleListeners increment];
    rewrite ?(onAll_spawned _ (l0 ++ [_]));
    cbn -[onAll logListeners consoleListeners increment];
    rewrite ?map_app; cbn -[onAll logListeners consoleListeners increment];
    rewrite <- ?app_assoc; auto.
Qed.

Lemma startLogStream_length o w :
  (List.length (processes w) < List.length (processes (fst (startLogStream o w))))%nat.
Proof.
  destruct (startLogStream_spec o w) as [_ H].
  apply (f_equal (@List.length _)) in H. rewrite length_app, !length_map in H.
  rewrite H. unfold spawnedListeners.
  destruct (type (device o)); destruct (modeOf o); simpl; lia.
Qed.

(** *** The listeners and the generation *)

Lemma console_stale (gen : Z) (m : LogMode) o ev payload (g : Globals) :
  gen <> logProcessId g ->
  dispatch (consoleListeners gen m o) ev payload g = (g, []).
Proof.
  intros H. apply Z.eqb_neq in H. unfold consoleListeners.
  destruct ev; simpl; rewrite H; reflexivity.
Qed.

Lemma log_stale (gen : Z) o ev payload (g : Globals) :
  gen <> logProcessId g ->
  dispatch (logListeners gen o) ev payload g = (g, []).
Proof.
  intros H. apply Z.eqb_neq in H. unfold logListeners.
  destruct ev; simpl; rewrite H; reflexivity.
Qed.

Lemma console_current (m : LogMode) o payload (g : Globals) :
  let ls := consoleListeners (logProcessId g) m o in
  dispatch ls stdoutData payload g
  = (g, forLines (fun l => onLog o l) payload) /\
  dispatch ls stderrData payload g
  = (g, forLines (fun l => onLog o ("[stderr] " ++ l)) payload) /\
  snd (dispatch ls error payload g) = onError o payload.
Proof.
  unfold consoleListeners. simpl. rewrite Z.eqb_refl. simpl.
  rewrite !app_nil_r. auto.
Qed.

Lemma log_current o payload (g : Globals) :
  let ls := logListeners (logProcessId g) o in
  dispatch ls stdoutData payload g
  = (g, forLines (fun l => onLog o l) payload) /\
  dispatch ls stderrData payload g = (g, onError o payload) /\
  snd (dispatch ls error payload g) = onError o payload.
Proof.
  unfold logListeners. simpl. rewrite Z.eqb_refl. simpl.
  rewrite !app_nil_r. auto.
Qed.

Lemma console_keepsGeneration (gen : Z) (m : LogMode) o :
  keepsGeneration (consoleListeners gen m o).
Proof.
  intros ev payload g. destruct (Z.eq_dec gen (logProcessId g)) as [->|Hne].
  - unfold consoleListeners. destruct ev; simpl; rewrite Z.eqb_refl; reflexivity.
  - now rewrite console_stale.
Qed.

Lemma log_keepsGeneration (gen : Z) o : keepsGeneration (logListeners gen o).
Proof.
  intros ev payload g. destruct (Z.eq_dec gen (logProcessId g)) as [->|Hne].
  - unfold logListeners. destruct ev; simpl; rewrite Z.eqb_refl; reflexivity.
  - now rewrite log_stale.
Qed.

(** The listeners a call adds are of the two kinds above. *)
Lemma spawnedListeners_kinds o (gen : Z) ls :
  In ls (spawnedListeners o gen) ->
  (exists m, ls = consoleListeners gen m o) \/ ls = logListeners gen o.
Proof.
  unfold spawnedListeners.
  destruct (type (device o)); destruct (modeOf o); simpl;
    intuition (subst; eauto).
Qed.

Lemma emit_spec (pid : nat) (ev : EventName) (payload : string) w ls :
  nth_error (map listeners (processes w)) pid = Some ls ->
  emit pid ev payload w
  = ({| globals := fst (dispatch ls ev payload (globals w));
        processes := processes w |},
     snd (dispatch ls ev payload (globals w))).
Proof.
  intros H. unfold emit. rewrite nth_error_map in H.
  destruct (nth_error (processes w) pid) as [p|]; [|discriminate].
  simpl in H. injection H as <-.
  now destruct (dispatch (listeners p) ev payload (globals w)).
Qed.

Lemma emit_processes (pid : nat) (ev : EventName) (payload : string) w :
  processes (fst (emit pid ev payload w)) = processes w.
Proof.
  unfold emit. destruct (nth_error (processes w) pid) as [p|]; [|reflexivity].
  now destruct (dispatch (listeners p) ev payload (globals w)).
Qed.

Lemma emit_generation (pid : nat) (ev : EventName) (payload : string) w :
  wellFormed w ->
  logProcessId (globals (fst (emit pid ev payload w))) = logProcessId (globals w).
Proof.
  intros Hwf. unfold emit.
  destruct (nth_error (processes w) pid) as [p|] eqn:E; [|reflexivity].
  assert (Hk : keepsGeneration (listeners p)).
  { unfold wellFormed in Hwf. rewrite Forall_forall in Hwf. apply Hwf.
    apply in_map. eapply nth_error_In; eauto. }
  specialize (Hk ev payload (globals w)).
  now destruct (dispatch (listeners p) ev payload (globals w)).
Qed.

Lemma increment_ge (n : Z) : (n <= increment n)%Z.
Proof. unfold increment. destruct (n <? 2 ^ 53)%Z; lia. Qed.

Lemma increment_lt (n : Z) : (n < 2 ^ 53)%Z -> increment n = (n + 1)%Z.
Proof.
  intros H. unfold increment. apply Z.ltb_lt in H. now rewrite H.
Qed.

(** *** Every step keeps the world well formed, never lowers the
    generation and never changes the listeners of a child *)

Lemma step_invariant w (op : Op A) :
  wellFormed w ->
  let w' := fst (step w op) in
  wellFormed w' /\
  (logProcessId (globals w) <= logProcessId (globals w'))%Z /\
  exists extra,
    map listeners (processes w') = (map listeners (processes w) ++ extra)%list.
Proof.
  intros Hwf. destruct op as [o | | pid ev payload]; simpl.
  - destruct (startLogStream_spec o w) as [Hid Hls]. repeat split.
    + unfold wellFormed. rewrite Hls. apply Forall_app. split; [exact Hwf|].
      apply Forall_forall. intros ls Hin.
      apply spawnedListeners_kinds in Hin as [[m ->] | ->].
      * apply console_keepsGeneration.
      * apply log_keepsGeneration.
    + rewrite Hid. apply increment_ge.
    + eexists. exact Hls.
  - destruct (stopLogStream_spec w) as (Hid & _ & _ & Hls & _). repeat split.
    + unfold wellFormed. now rewrite Hls.
    + rewrite Hid. lia.
    + exists []. now rewrite app_nil_r.
  - repeat split.
    + unfold wellFormed. now rewrite emit_processes.
    + rewrite emit_generation by assumption. lia.
    + exists []. now rewrite emit_processes, app_nil_r.
Qed.

Lemma run_invariant (ops : list (Op A)) w :
  wellFormed w ->
  let w' := fst (run ops w) in
  wellFormed w' /\
  (logProcessId (globals w) <= logProcessId (globals w'))%Z /\
  exists extra,
    map listeners (processes w') = (map listeners (processes w) ++ extra)%list.
Proof.
  revert w. induction ops as [|op ops IH]; intros w Hwf; simpl.
  - repeat split; [exact Hwf | lia | exists []; now rewrite app_nil_r].
  - destruct (step_invariant w op Hwf) as (Hwf1 & Hid1 & extra1 & Hls1).
    destruct (step w op) as [w1 out1]. simpl in Hwf1, Hid1, Hls1.
    destruct (IH w1 Hwf1) as (Hwf2 & Hid2 & extra2 & Hls2).
    destruct (run ops w1) as [w2 out2]. simpl in *.
    repeat split; [exact Hwf2 | lia |].
    exists (extra1 ++ extra2)%list. now rewrite Hls2, Hls1, app_assoc.
Qed.

Lemma initial_wellFormed : wellFormed (@initial A).
Proof. constructor. Qed.

(** The listeners of a child spawned by a call are among those the call
    adds, and stay what they are in every later world. *)
Lemma spawned_listeners o w (pid : nat) :
  spawnedBetween w (fst (startLogStream o w)) pid ->
  exists ls,
    In ls (spawnedListeners o (increment (logProcessId (globals w)))) /\
    nth_error (map listeners (processes (fst (startLogStream o w)))) pid = Some ls.
Proof.
  unfold spawnedBetween. intros [Hlo Hhi].
  destruct (startLogStream_spec o w) as [_ Hls]. rewrite Hls.
  rewrite <- (length_map (@listeners A)) in Hlo, Hhi. rewrite Hls in Hhi.
  rewrite nth_error_app2 by exact Hlo.
  rewrite length_app in Hhi.
  destruct (nth_error (spawnedListeners o _) _) as [ls|] eqn:E.
  - exists ls. split; [eapply nth_error_In; eauto | reflexivity].
  - apply nth_error_None in E. lia.
Qed.

Lemma stale_emit (gen : Z) o w ls (pid : nat) (ev : EventName) (payload : string) :
  In ls (spawnedListeners o gen) ->
  nth_error (map listeners (processes w)) pid = Some ls ->
  gen <> logProcessId (globals w) ->
  emit pid ev payload w = (w, []).
Proof.
  intros Hin Hnth Hne. rewrite (emit_spec _ _ _ _ _ Hnth).
  apply spawnedListeners_kinds in Hin as [[m ->] | ->].
  - rewrite console_stale by exact Hne. now destruct w.
  - rewrite log_stale by exact Hne. now destruct w.
Qed.

(** C1. Every call of [startLogStream] advances the generation, so of two
    calls in a row (in any mode, stdout among them) the first runs under a
    smaller generation than the second.  From then on, whatever else is
    called or arrives, an event of a child spawned by the first call (data
    on its stdout or stderr, and its close and error as well) changes
    nothing and reaches none of the caller's callbacks.  The generation is
    a double: the statement is for a first generation below 2^53. *)
Theorem stale_generation_is_discarded :
  forall (before : list (Op A)) (o1 o2 : LogStreamOptions A) (later : list (Op A)),
    let w := fst (run before initial) in
    let w1 := fst (startLogStream o1 w) in
    let w2 := fst (startLogStream o2 w1) in
    let w3 := fst (run later w2) in
    (logProcessId (globals w1) < 2 ^ 53)%Z ->
    (logProcessId (globals w1) < logProcessId (globals w2))%Z /\
    forall (pid : nat) (ev : EventName) (payload : string),
      spawnedBetween w w1 pid ->
      emit pid ev payload w3 = (w3, []).
Proof.
  intros before o1 o2 later w w1 w2 w3 Hbound.
  destruct (run_invariant before initial initial_wellFormed) as (Hwf & _ & _).
  fold w in Hwf.
  destruct (step_invariant w (Start o1) Hwf) as (Hwf1 & _ & _).
  destruct (step_invariant w1 (Start o2) Hwf1) as (Hwf2 & _ & extra2 & Hls2).
  destruct (run_invariant later w2 Hwf2) as (_ & Hid3 & extra3 & Hls3).
  simpl in Hwf1, Hwf2, Hls2. fold w1 in Hwf1, Hls2. fold w2 in Hls2, Hid3, Hls3.
  fold w3 in Hid3, Hls3.
  destruct (startLogStream_spec o1 w) as [Hid1 _]. fold w1 in Hid1.
  destruct (startLogStream_spec o2 w1) as [Hid2 _]. fold w2 in Hid2.
  rewrite (increment_lt _ Hbound) in Hid2.
  split; [lia|].
  intros pid ev payload Hpid.
  destruct (spawned_listeners o1 w pid Hpid) as [ls [Hin Hnth]]. fold w1 in Hnth.
  apply (stale_emit (increment (logProcessId (globals w))) o1 w3 ls); auto.
  - rewrite Hls3, Hls2, <- app_assoc. rewrite nth_error_app1; [exact Hnth|].
    apply nth_error_Some. now rewrite Hnth.
  - rewrite <- Hid1. lia.
Qed.

Lemma spawned_nth o w (k : nat) ls :
  nth_error (spawnedListeners o (increment (logProcessId (globals w)))) k = Some ls ->
  nth_error (map listeners (processes (fst (startLogStream o w))))
            (List.length (processes w) + k) = Some ls.
Proof.
  intros H. destruct (startLogStream_spec o w) as [_ Hls]. rewrite Hls.
  rewrite nth_error_app2; rewrite length_map; [|lia].
  now replace (List.length (processes w) + k - List.length (processes w))%nat
    with k by lia.
Qed.

Lemma forLines_filter (f : string -> list A) (data : string) :
  forLines f data = flat_map f (filter nonBlank (split LF data)).
Proof.
  unfold forLines. induction (split LF data) as [|l ls IH]; simpl; [reflexivity|].
  rewrite trim_truthy. destruct (nonBlank l); simpl; now rewrite IH.
Qed.

(** How a child of the current generation hears data on its two streams. *)
Lemma current_emit o w ls (pid : nat) (payload : string) :
  In ls (spawnedListeners o (logProcessId (globals w))) ->
  nth_error (map listeners (processes w)) pid = Some ls ->
  snd (emit pid stdoutData payload w) = forLines (fun l => onLog o l) payload /\
  (snd (emit pid stderrData payload w)
   = forLines (fun l => onLog o ("[stderr] " ++ l)) payload
   \/ snd (emit pid stderrData payload w) = onError o payload).
Proof.
  intros Hin Hnth. rewrite !(emit_spec _ _ _ _ _ Hnth). simpl.
  apply spawnedListeners_kinds in Hin as [[m ->] | ->].
  - destruct (console_current m o payload (globals w)) as (-> & -> & _). auto.
  - destruct (log_current o payload (globals w)) as (-> & -> & _). auto.
Qed.

(** C5, as the code has it.  [stopLogStream] clears the two handles and
    leaves the generation where it is.  So the children of the stopped
    stream are still of the current generation: a chunk that arrives on the
    stdout of one of them is forwarded to [onLog] line by line, and a chunk
    on its stderr is handled as it was before the stop.  Their output is
    discarded only once a later [startLogStream] has advanced the
    generation (for a generation below 2^53). *)
Theorem stop_keeps_the_generation :
  forall w o (pid : nat) (payload : string),
    let w1 := fst (startLogStream o w) in
    let w2 := fst (stopLogStream w1) in
    (logProcessId (globals w1) < 2 ^ 53)%Z ->
    spawnedBetween w w1 pid ->
    logProcessId (globals w2) = logProcessId (globals w1) /\
    isLogStreamRunning w2 = false /\
    snd (emit pid stdoutData payload w2)
    = flat_map (onLog o) (filter nonBlank (split LF payload)) /\
    snd (emit pid stderrData payload w2) = snd (emit pid stderrData payload w1) /\
    forall (o' : LogStreamOptions A) (ev : EventName),
      let w3 := fst (startLogStream o' w2) in
      emit pid ev payload w3 = (w3, []).
Proof.
  intros w o pid payload w1 w2 Hbound Hpid.
  destruct (stopLogStream_spec w1) as (Hid & Hlp & Hslp & Hls & _).
  fold w2 in Hid, Hlp, Hslp, Hls.
  destruct (startLogStream_spec o w) as [Hid1 _]. fold w1 in Hid1.
  destruct (spawned_listeners o w pid Hpid) as [ls [Hin Hnth]]. fold w1 in Hnth.
  assert (Hnth2 : nth_error (map listeners (processes w2)) pid = Some ls)
    by now rewrite Hls.
  split; [exact Hid|]. split.
  { unfold isLogStreamRunning. now rewrite Hlp, Hslp. }
  assert (Hin1 : In ls (spawnedListeners o (logProcessId (globals w1))))
    by now rewrite Hid1.
  assert (Hin2 : In ls (spawnedListeners o (logProcessId (globals w2))))
    by now rewrite Hid.
  split; [|split].
  - destruct (current_emit o w2 ls pid payload Hin2 Hnth2) as [-> _].
    apply forLines_filter.
  - rewrite !(emit_spec _ _ _ _ _ Hnth2), !(emit_spec _ _ _ _ _ Hnth). simpl.
    apply spawnedListeners_kinds in Hin1 as [[m ->] | ->].
    + destruct (console_current m o payload (globals w1)) as (_ & -> & _).
      rewrite <- Hid.
      now destruct (console_current m o payload (globals w2)) as (_ & -> & _).
    + destruct (log_current o payload (globals w1)) as (_ & -> & _).
      rewrite <- Hid.
      now destruct (log_current o payload (globals w2)) as (_ & -> & _).
  - intros o' ev w3.
    destruct (startLogStream_spec o' w2) as [Hid3 Hls3]. fold w3 in Hid3, Hls3.
    apply (stale_emit (logProcessId (globals w1)) o w3 ls); auto.
    + rewrite Hls3, nth_error_app1; [exact Hnth2|].
      apply nth_error_Some. now rewrite Hnth2.
    + rewrite Hid3, Hid, (increment_lt _ Hbound). lia.
Qed.

(** C9, as the code has it.  Right after [startLogStream], a chunk on the
    stdout of any child it spawned is split at line feeds and its non-blank
    lines go to [onLog], one call each.  On a simulator, the console launch
    (the first child in the modes stdout and both) has the lines of its
    stderr prefixed with "[stderr] " and sent to [onLog] too, and [onError]
    hears only its error event.  The other children hand each stderr chunk
    to [onError] as it is: the system log of a simulator, and on a physical
    device the one child of every mode, the console launch included. *)
Theorem output_lines_reach_onLog :
  forall w o (payload : string),
    let w1 := fst (startLogStream o w) in
    let first := List.length (processes w) in
    let lines := filter nonBlank (split LF payload) in
    (forall pid, spawnedBetween w w1 pid ->
                 snd (emit pid stdoutData payload w1) = flat_map (onLog o) lines) /\
    (type (device o) = DeviceType.simulator -> modeOf o <> system ->
     snd (emit first stderrData payload w1)
     = flat_map (fun l => onLog o ("[stderr] " ++ l)) lines /\
     snd (emit first error payload w1) = onError o payload) /\
    (type (device o) = DeviceType.simulator -> modeOf o = system ->
     snd (emit first stderrData payload w1) = onError o payload) /\
    (type (device o) = DeviceType.simulator -> modeOf o = both ->
     snd (emit (S first) stderrData payload w1) = onError o payload) /\
    (type (device o) = DeviceType.device ->
     snd (emit first stderrData payload w1) = onError o payload).
Proof.
  intros w o payload w1 first lines.
  destruct (startLogStream_spec o w) as [Hid1 _]. fold w1 in Hid1.
  set (gen := increment (logProcessId (globals w))) in *.
  assert (Hk : forall k ls,
             nth_error (spawnedListeners o gen) k = Some ls ->
             nth_error (map listeners (processes w1)) (first + k) = Some ls).
  { intros k ls. apply spawned_nth. }
  assert (Hconsole : forall k m,
             nth_error (spawnedListeners o gen) k = Some (consoleListeners gen m o) ->
             snd (emit (first + k) stderrData payload w1)
             = flat_map (fun l => onLog o ("[stderr] " ++ l)) lines /\
             snd (emit (first + k) error payload w1) = onError o payload).
  { intros k m H. apply Hk in H. rewrite !(emit_spec _ _ _ _ _ H). cbn [fst snd].
    rewrite <- Hid1.
    destruct (console_current m o payload (globals w1)) as (_ & -> & ->).
    split; [apply forLines_filter | reflexivity]. }
  assert (Hlog : forall k,
             nth_error (spawnedListeners o gen) k = Some (logListeners gen o) ->
             snd (emit (first + k) stderrData payload w1) = onError o payload).
  { intros k H. apply Hk in H. rewrite !(emit_spec _ _ _ _ _ H). cbn [fst snd].
    rewrite <- Hid1.
    now destruct (log_current o payload (globals w1)) as (_ & -> & _). }
  replace first with (first + 0)%nat by lia.
  replace (S (first + 0)) with (first + 1)%nat by lia.
  split; [|split; [|split; [|split]]].
  - intros pid Hpid.
    destruct (spawned_listeners o w pid Hpid) as [ls [Hin Hnth]]. fold w1 in Hnth.
    fold gen in Hin. rewrite <- Hid1 in Hin.
    destruct (current_emit o w1 ls pid payload Hin Hnth) as [-> _].
    apply forLines_filter.
  - intros Hsim Hmode. unfold spawnedListeners in Hconsole. rewrite Hsim in Hconsole.
    destruct (modeOf o); [| contradiction |].
    + now apply (Hconsole 0%nat stdout).
    + now apply (Hconsole 0%nat both).
  - intros Hsim Hmode. unfold spawnedListeners in Hlog. rewrite Hsim, Hmode in Hlog.
    now apply (Hlog 0%nat).
  - intros Hsim Hmode. unfold spawnedListeners in Hlog. rewrite Hsim, Hmode in Hlog.
    now apply (Hlog 1%nat).
  - intros Hdev. unfold spawnedListeners in Hlog. rewrite Hdev in Hlog.
    apply (Hlog 0%nat). now destruct (modeOf o).
Qed.

End LogStreamFacts.

Section LogStreamExamples.
Import JsString Manager Spec.

Lemma stale_generation_witness :
  let o := recorder sampleDevice (Some stdout) in
  let w1 := fst (startLogStream o initial) in
  let w2 := fst (startLogStream o w1) in
  (logProcessId (globals w1) < 2 ^ 53)%Z /\
  (logProcessId (globals w1) < logProcessId (globals w2))%Z /\
  emit 0 stdoutData (line "late") w2 = (w2, []).
Proof.
  intros o w1 w2.
  assert (Hbound : (logProcessId (globals w1) < 2 ^ 53)%Z) by reflexivity.
  split; [exact Hbound|].
  destruct (stale_generation_is_discarded Call [] o o [] Hbound) as [Hlt Hstale].
  split; [exact Hlt|].
  apply (Hstale 0%nat stdoutData (line "late")).
  split; [apply le_n | apply le_n].
Defined.

(** After a stop and no new start, a late chunk of the killed console
    launch still reaches [onLog]. *)
Lemma trailing_output_after_stop_is_forwarded :
  let o := recorder sampleDevice (Some stdout) in
  let w2 := fst (stopLogStream (fst (startLogStream o initial))) in
  isLogStreamRunning w2 = false /\
  snd (emit 0 stdoutData (line "late") w2) = [OnLog "late"] /\
  snd (emit 0 stdoutData (line "late") w2) <> [].
Proof. split; [reflexivity|]. split; [reflexivity | discriminate]. Qed.

Lemma stop_keeps_the_generation_witness :
  let o := recorder sampleDevice (Some stdout) in
  let w1 := fst (startLogStream o initial) in
  let w2 := fst (stopLogStream w1) in
  (logProcessId (globals w1) < 2 ^ 53)%Z /\
  spawnedBetween initial w1 0 /\
  logProcessId (globals w2) = logProcessId (globals w1) /\
  snd (emit 0 stdoutData (line "late") w2)
  = flat_map (onLog o) (filter nonBlank (split LF (line "late"))).
Proof.
  intros o w1 w2.
  assert (Hbound : (logProcessId (globals w1) < 2 ^ 53)%Z) by reflexivity.
  assert (Hpid : spawnedBetween initial w1 0) by (split; [apply le_n | apply le_n]).
  split; [exact Hbound|]. split; [exact Hpid|].
  destruct (stop_keeps_the_generation Call initial o 0%nat (line "late") Hbound Hpid)
    as (Hid & _ & Hout & _).
  split; [exact Hid | exact Hout].
Defined.

(** On a physical device the console launch is the one child, and a chunk
    of its stderr goes to [onError] whole, not to [onLog] under a tag. *)
Lemma device_stderr_reaches_onError :
  let o := recorder samplePhone (Some stdout) in
  let w1 := fst (startLogStream o initial) in
  map (@spawnargs Call) (processes w1)
  = [["devicectl"; "device"; "process"; "launch"; "-d"; "00008110-000A";
      "--console"; "--terminate-existing"; "com.example.app"]] /\
  snd (emit 0 stderrData (line "boom") w1) = [OnError (line "boom")] /\
  snd (emit 0 stderrData (line "boom") w1) <> [OnLog "[stderr] boom"].
Proof. split; [reflexivity|]. split; [reflexivity | discriminate]. Qed.

End LogStreamExamples.

(** * More on the log stream session *)
Section LogStreamMore.
Import JsString Manager Spec Spec2.

Variable A : Type.
Implicit Types (w : World A) (o : LogStreamOptions A).

Local Arguments onAll : simpl never.
Local Arguments consoleListeners : simpl never.
Local Arguments logListeners : simpl never.

(** X1. [stopLogStream] answers whether a stream was running, leaves none
    running, changes nothing when none was, and answers false when called
    again. *)
Theorem stopLogStream_reports_and_clears :
  forall w,
    let w' := fst (stopLogStream w) in
    snd (stopLogStream w) = isLogStreamRunning w /\
    isLogStreamRunning w' = false /\
    snd (stopLogStream w') = false /\
    (isLogStreamRunning w = false -> w' = w).
Proof.
  intros [[lp id slp] procs].
  destruct slp as [p|]; destruct lp as [q|]; cbn; repeat split; try discriminate.
Qed.

Lemma nth_error_updateAt {T} (f : T -> T) (n m : nat) (l : list T) :
  nth_error (updateAt f n l) m
  = if Nat.eqb n m then option_map f (nth_error l m) else nth_error l m.
Proof.
  revert n m. induction l as [|x l IH]; intros [|n] [|m]; simpl; auto;
    now destruct (Nat.eqb _ _).
Qed.

Lemma stopLogStream_signals w (pid : nat) (p : ChildProcess A) :
  nth_error (processes w) pid = Some p ->
  exists p',
    nth_error (processes (fst (stopLogStream w))) pid = Some p' /\
    signals p' = (signals p ++ repeat "SIGTERM" (holds (globals w) pid))%list /\
    listeners p' = listeners p /\
    spawnfile p' = spawnfile p /\ spawnargs p' = spawnargs p.
Proof.
  destruct w as [[lp id slp] procs]. intros Hp. simpl in Hp.
  unfold stopLogStream, holds.
  destruct slp as [a|]; destruct lp as [b|]; cbn;
    rewrite ?nth_error_updateAt, ?Hp;
    repeat match goal with
           | |- context [Nat.eqb ?x ?y] => destruct (Nat.eqb x y)
           end;
    cbn; eexists; (split; [reflexivity|]); cbn;
    rewrite <- ?app_assoc, ?app_nil_r; auto.
Qed.

(** X2. [stopLogStream] sends SIGTERM to the children the handles hold, once
    per handle (twice to a child that both handles hold), and to no other
    child; it leaves the listeners of every child in place. *)
Theorem stopLogStream_signals_held_children :
  forall w (pid : nat) (p : ChildProcess A),
    nth_error (processes w) pid = Some p ->
    exists p',
      nth_error (processes (fst (stopLogStream w))) pid = Some p' /\
      signals p' = (signals p ++ repeat "SIGTERM" (holds (globals w) pid))%list /\
      listeners p' = listeners p /\
      spawnfile p' = spawnfile p /\ spawnargs p' = spawnargs p.
Proof. exact stopLogStream_signals. Qed.

(** The handles after a call of [startLogStream], and what it answers:
    [n] is the position of the first child it spawns. *)
Lemma startLogStream_handles o w :
  let n := List.length (processes w) in
  let w1 := fst (startLogStream o w) in
  snd (startLogStream o w) = true /\
  (stdoutLogProcess (globals w1), logProcess (globals w1))
  = match type (device o), modeOf o with
    | DeviceType.simulator, stdout => (Some n, Some n)
    | DeviceType.simulator, both => (Some n, Some (S n))
    | DeviceType.simulator, system => (None, Some n)
    | DeviceType.device, _ => (None, Some n)
    end.
Proof.
  intros n w1. subst n w1. unfold startLogStream.
  destruct (stopLogStream_spec A w) as (_ & Hlp & Hslp & _ & Hlen).
  destruct (fst (stopLogStream w)) as [[lp0 id0 slp0] l0].
  simpl in Hlp, Hslp, Hlen. subst lp0 slp0. rewrite <- Hlen. clear Hlen.
  unfold modeOf, spawn, setLogProcessId, setStdoutLogProcess, setLogProcess.
  destruct (type (device o)); destruct (mode o) as [[]|];
    cbn -[onAll logListeners consoleListeners increment];
    rewrite ?onAll_spawned;
    cbn -[onAll logListeners consoleListeners increment];
    rewrite ?(onAll_spawned _ _ (l0 ++ [_]));
    cbn -[onAll logListeners consoleListeners increment];
    rewrite ?length_app; cbn;
    rewrite ?Nat.add_1_r; auto.
Qed.


Lemma console_close (m : LogMode) o (payload : string) (g : Globals) :
  dispatch (consoleListeners (logProcessId g) m o) close payload g
  = ({| logProcess := logProcess g; logProcessId := logProcessId g;
        stdoutLogProcess := None |},
     if LogMode_eqb m stdout then onClose o tt else []).
Proof.
  unfold consoleListeners. cbn. rewrite Z.eqb_refl. cbn.
  now rewrite app_nil_r.
Qed.

Lemma log_close o (payload : string) (g : Globals) :
  dispatch (logListeners (logProcessId g) o) close payload g
  = ({| logProcess := None; logProcessId := logProcessId g;
        stdoutLogProcess := stdoutLogProcess g |},
     onClose o tt).
Proof.
  unfold logListeners. cbn. rewrite Z.eqb_refl. cbn.
  now rewrite app_nil_r.
Qed.

(** X4. When the console launch of a simulator stream in mode stdout closes,
    [onClose] is called, the handle [stdoutLogProcess] is cleared, but
    [logProcess] still holds the closed child: [isLogStreamRunning] goes on
    answering true. *)
Theorem console_close_leaves_stream_running :
  forall o w (payload : string),
    type (device o) = DeviceType.simulator ->
    modeOf o = stdout ->
    let n := List.length (processes w) in
    let w1 := fst (startLogStream o w) in
    let w2 := fst (emit n close payload w1) in
    snd (emit n close payload w1) = onClose o tt /\
    stdoutLogProcess (globals w2) = None /\
    logProcess (globals w2) = Some n /\
    isLogStreamRunning w2 = true.
Proof.
  intros o w payload Hsim Hmode n w1 w2.
  destruct (startLogStream_handles o w) as [_ Hh]. fold w1 n in Hh.
  rewrite Hsim, Hmode in Hh.
  destruct (startLogStream_spec A o w) as [Hid _]. fold w1 in Hid.
  assert (Hnth : nth_error (map listeners (processes w1)) (n + 0)
                 = Some (consoleListeners (logProcessId (globals w1)) stdout o)).
  { rewrite Hid. apply spawned_nth. unfold spawnedListeners.
    now rewrite Hsim, Hmode. }
  rewrite Nat.add_0_r in Hnth.
  subst w2. rewrite (emit_spec A _ _ _ _ _ Hnth), console_close. cbn.
  injection Hh as Hs Hl. unfold isLogStreamRunning. cbn. rewrite Hl. auto.
Qed.

(** X5. For the other streams the close events clear the handles.  A stream
    of one child that is not the console launch of mode stdout (the system
    log of a simulator, any stream of a physical device) calls [onClose] and
    is no longer running once its child closes.  In mode both on a simulator
    the close of the console launch calls nothing and the close of the
    system log calls [onClose]; after the two, in this order, nothing is
    running. *)
Theorem close_clears_the_handles :
  forall o w (payload : string),
    let n := List.length (processes w) in
    let w1 := fst (startLogStream o w) in
    (type (device o) = DeviceType.device \/
     (type (device o) = DeviceType.simulator /\ modeOf o = system) ->
     snd (emit n close payload w1) = onClose o tt /\
     isLogStreamRunning (fst (emit n close payload w1)) = false) /\
    (type (device o) = DeviceType.simulator -> modeOf o = both ->
     let w2 := fst (emit n close payload w1) in
     let w3 := fst (emit (S n) close payload w2) in
     snd (emit n close payload w1) = [] /\
     isLogStreamRunning w2 = true /\
     snd (emit (S n) close payload w2) = onClose o tt /\
     isLogStreamRunning w3 = false).
Proof.
  intros o w payload n w1.
  destruct (startLogStream_handles o w) as [_ Hh]. fold w1 n in Hh.
  destruct (startLogStream_spec A o w) as [Hid _]. fold w1 in Hid.
  assert (Hk : forall k ls,
             nth_error (spawnedListeners o (logProcessId (globals w1))) k = Some ls ->
             nth_error (map listeners (processes w1)) (n + k) = Some ls).
  { intros k ls. rewrite Hid. apply spawned_nth. }
  split.
  - intros Hcase.
    assert (Hnth : nth_error (map listeners (processes w1)) (n + 0)
                   = Some (logListeners (logProcessId (globals w1)) o)).
    { apply Hk. unfold spawnedListeners.
      destruct Hcase as [-> | [-> ->]]; [now destruct (modeOf o) | reflexivity]. }
    rewrite Nat.add_0_r in Hnth.
    rewrite (emit_spec A _ _ _ _ _ Hnth), log_close. cbn.
    split; [reflexivity|]. unfold isLogStreamRunning. cbn.
    assert (Hs : stdoutLogProcess (globals w1) = None).
    { destruct Hcase as [Hd | [Hs Hm]].
      - rewrite Hd in Hh. now injection Hh.
      - rewrite Hs, Hm in Hh. now injection Hh. }
    now rewrite Hs.
  - intros Hsim Hmode w2 w3. rewrite Hsim, Hmode in Hh. injection Hh as Hs Hl.
    assert (Hn0 : nth_error (map listeners (processes w1)) (n + 0)
                  = Some (consoleListeners (logProcessId (globals w1)) both o)).
    { apply Hk. unfold spawnedListeners. now rewrite Hsim, Hmode. }
    assert (Hn1 : nth_error (map listeners (processes w1)) (n + 1)
                  = Some (logListeners (logProcessId (globals w1)) o)).
    { apply Hk. unfold spawnedListeners. now rewrite Hsim, Hmode. }
    rewrite Nat.add_0_r in Hn0. rewrite Nat.add_1_r in Hn1.
    assert (E2 : emit n close payload w1
                 = ({| globals := {| logProcess := logProcess (globals w1);
                                     logProcessId := logProcessId (globals w1);
                                     stdoutLogProcess := None |};
                       processes := processes w1 |}, [])).
    { now rewrite (emit_spec A _ _ _ _ _ Hn0), console_close. }
    subst w3 w2. rewrite E2. cbn [fst snd].
    split; [reflexivity|]. split.
    { unfold isLogStreamRunning. cbn. now rewrite Hl. }
    set (w2 := {| globals := _; processes := processes w1 |}).
    assert (Hn1' : nth_error (map listeners (processes w2)) (S n)
                   = Some (logListeners (logProcessId (globals w2)) o)) by exact Hn1.
    rewrite (emit_spec A _ _ _ _ _ Hn1'), log_close. cbn. auto.
Qed.

(** X6. The generation counts the calls of [startLogStream]: after any run
    of calls and events from the module as loaded, [logProcessId] is the
    number of [startLogStream] calls made (as long as that is at most
    2^53). *)
Theorem generation_counts_the_starts :
  forall (ops : list (Op A)),
    (Z.of_nat (starts ops) <= 2 ^ 53)%Z ->
    logProcessId (globals (fst (run ops initial))) = Z.of_nat (starts ops).
Proof.
  assert (Hgen : forall (ops : list (Op A)) w,
             wellFormed w ->
             (logProcessId (globals w) + Z.of_nat (starts ops) <= 2 ^ 53)%Z ->
             logProcessId (globals (fst (run ops w)))
             = (logProcessId (globals w) + Z.of_nat (starts ops))%Z).
  { induction ops as [|op ops IH]; intros w Hwf Hb.
    - cbn. lia.
    - destruct (step_invariant A w op Hwf) as (Hwf1 & _ & _).
      assert (Hid : logProcessId (globals (fst (step w op)))
                    = (logProcessId (globals w)
                       + match op with Start _ => 1 | _ => 0 end)%Z).
      { destruct op as [o | | pid ev payload]; cbn [step fst].
        - destruct (startLogStream_spec A o w) as [-> _].
          apply increment_lt. cbn [starts] in Hb. lia.
        - destruct (stopLogStream_spec A w) as (-> & _). lia.
        - rewrite emit_generation by assumption. lia. }
      cbn [run]. destruct (step w op) as [w1 out1]. cbn [fst] in Hwf1, Hid.
      specialize (IH w1 Hwf1).
      destruct (run ops w1) as [w2 out2]. cbn [fst] in IH |- *.
      rewrite IH; destruct op; cbn [starts] in Hb |- *; lia. }
  intros ops Hb. rewrite (Hgen ops initial (initial_wellFormed A)); cbn; lia.
Qed.

End LogStreamMore.

(** * More on the device session and the catalog *)
Section DeviceSessionMore.
Import JsString Manager Spec Spec2.

(** X7. [installApp] runs one [simctl] command on a simulator and passes
    its error on.  On a physical device it runs [devicectl] first and
    [ios-deploy] only when [devicectl] failed; then the outcome is that of
    [ios-deploy], and the error of [devicectl] is dropped. *)
Theorem installApp_falls_back_once :
  forall (sh : Shell) (tr : list string) (d : Device) (appPath : string),
    let simctl :=
      "xcrun simctl install " ++ dq ++ udid d ++ dq ++ " " ++ dq ++ appPath ++ dq in
    let devicectl :=
      "xcrun devicectl device install app -d " ++ dq ++ udid d ++ dq
      ++ " " ++ dq ++ appPath ++ dq in
    let iosDeploy :=
      "ios-deploy --id " ++ dq ++ udid d ++ dq ++ " --bundle " ++ dq ++ appPath ++ dq in
    match type d with
    | DeviceType.simulator =>
        installApp d appPath sh tr = ((tr ++ [simctl])%list, finish (sh tr simctl))
    | DeviceType.device =>
        match sh tr devicectl with
        | Return _ => installApp d appPath sh tr = ((tr ++ [devicectl])%list, Return tt)
        | Throw _ =>
            installApp d appPath sh tr
            = ((tr ++ [devicectl; iosDeploy])%list,
               finish (sh (tr ++ [devicectl])%list iosDeploy))
        end
    end.
Proof.
  intros sh tr d appPath simctl devicectl iosDeploy.
  unfold installApp, tryCatch, bind, execAsync, ret.
  fold simctl devicectl iosDeploy.
  destruct (type d); cbn [DeviceType.eqb].
  - destruct (sh tr simctl); reflexivity.
  - destruct (sh tr devicectl); [reflexivity|].
    rewrite <- app_assoc. cbn [app].
    destruct (sh (tr ++ [devicectl])%list iosDeploy); reflexivity.
Qed.

(** X8. [launchApp] has the same shape: one [simctl] command on a simulator;
    on a physical device [devicectl], and [ios-deploy --justlaunch] only
    when [devicectl] failed, whose outcome is then the outcome. *)
Theorem launchApp_falls_back_once :
  forall (sh : Shell) (tr : list string) (d : Device) (bundleId : string),
    let simctl :=
      "xcrun simctl launch " ++ dq ++ udid d ++ dq ++ " " ++ dq ++ bundleId ++ dq in
    let devicectl :=
      "xcrun devicectl device process launch -d " ++ dq ++ udid d ++ dq
      ++ " " ++ dq ++ bundleId ++ dq in
    let iosDeploy :=
      "ios-deploy --id " ++ dq ++ udid d ++ dq ++ " --bundle-id " ++ dq ++ bundleId ++ dq
      ++ " --justlaunch" in
    match type d with
    | DeviceType.simulator =>
        launchApp d bundleId sh tr = ((tr ++ [simctl])%list, finish (sh tr simctl))
    | DeviceType.device =>
        match sh tr devicectl with
        | Return _ => launchApp d bundleId sh tr = ((tr ++ [devicectl])%list, Return tt)
        | Throw _ =>
            launchApp d bundleId sh tr
            = ((tr ++ [devicectl; iosDeploy])%list,
               finish (sh (tr ++ [devicectl])%list iosDeploy))
        end
    end.
Proof.
  intros sh tr d bundleId simctl devicectl iosDeploy.
  unfold launchApp, tryCatch, bind, execAsync, ret.
  fold simctl devicectl iosDeploy.
  destruct (type d); cbn [DeviceType.eqb].
  - destruct (sh tr simctl); reflexivity.
  - destruct (sh tr devicectl); [reflexivity|].
    rewrite <- app_assoc. cbn [app].
    destruct (sh (tr ++ [devicectl])%list iosDeploy); reflexivity.
Qed.

End DeviceSessionMore.

Section CatalogMore.
Import JsString Manager Spec Spec2.

Variable parseSimctl : string -> Outcome Simctl.Output.
Variable parseDevicectl : string -> Outcome Devicectl.Output.
Variable xctraceLine : string -> option (string * string * string).

Abbreviation listSimulators' := (Manager.listSimulators parseSimctl).
Abbreviation listDevicesWithDevicectl' :=
  (Manager.listDevicesWithDevicectl parseDevicectl).
Abbreviation listDevicesWithInstruments' :=
  (Manager.listDevicesWithInstruments xctraceLine).
Abbreviation listRealDevices' := (Manager.listRealDevices parseDevicectl xctraceLine).
Abbreviation listAllDevices' :=
  (Manager.listAllDevices parseSimctl parseDevicectl xctraceLine).

(** X9. [listRealDevices] asks [devicectl] first.  When that gives at least
    one device they are the answer and [xctrace] is not run; when it gives
    none (it failed, or listed nothing reachable) the answer is that of the
    [xctrace] listing, run next. *)
Theorem listRealDevices_asks_xctrace_only_when_needed :
  forall (sh : Shell) (tr : list string),
    let tr1 := (tr ++ [devicectlCommand])%list in
    exists ds,
      listDevicesWithDevicectl' sh tr = (tr1, Return ds) /\
      (ds <> [] -> listRealDevices' sh tr = (tr1, Return ds)) /\
      (ds = [] ->
       listRealDevices' sh tr = listDevicesWithInstruments' sh tr1 /\
       fst (listRealDevices' sh tr) = (tr1 ++ [xctraceCommand])%list).
Proof.
  intros sh tr tr1.
  destruct (listDevicesWithDevicectl_returns parseDevicectl sh tr) as [ds [Hd _]].
  exists ds. split; [exact Hd|].
  unfold Manager.listRealDevices, tryCatch, bind. rewrite Hd. fold tr1.
  split.
  - intros Hne. destruct ds as [|d ds]; [contradiction | reflexivity].
  - intros ->. cbn.
    destruct (listDevicesWithInstruments_returns xctraceLine sh tr1) as [ds' [Hi _]].
    rewrite Hi. auto.
Qed.

Lemma Forall_flat_map {T U} (P : U -> Prop) (f : T -> list U) (l : list T) :
  (forall x, In x l -> Forall P (f x)) -> Forall P (flat_map f l).
Proof.
  intros H. induction l as [|x l IH]; simpl; [constructor|].
  apply Forall_app. split; [apply H; now left | apply IH; intros y Hy; apply H; now right].
Qed.

(** X10. Every target of the catalog is available.  The catalog is the
    simulators followed by the physical devices: the former have type
    simulator and platform "iOS Simulator", the latter type device, platform
    "iOS" and state "Connected" or "Network". *)
Theorem catalog_targets_are_available :
  forall (sh : Shell) (tr : list string),
    exists sims reals,
      snd (listAllDevices' sh tr) = Return (sims ++ reals)%list /\
      Forall (fun d => type d = DeviceType.simulator /\ isAvailable d = true /\
                       platform d = "iOS Simulator") sims /\
      Forall (fun d => type d = DeviceType.device /\ isAvailable d = true /\
                       platform d = "iOS" /\
                       (state d = "Connected" \/ state d = "Network")) reals.
Proof.
  intros sh tr.
  set (P := fun d => type d = DeviceType.simulator /\ isAvailable d = true /\
                     platform d = "iOS Simulator").
  set (Q := fun d => type d = DeviceType.device /\ isAvailable d = true /\
                     platform d = "iOS" /\
                     (state d = "Connected" \/ state d = "Network")).
  assert (Hsims : forall sh tr, exists sims,
             listSimulators' sh tr = ((tr ++ [simctlCommand])%list, Return sims)
             /\ Forall P sims).
  { intros sh0 tr0.
    unfold Manager.listSimulators, tryCatch, bind, execAsync, lift, ret.
    fold simctlCommand.
    destruct (sh0 tr0 simctlCommand) as [out|e]; cbn.
    - destruct (parseSimctl out) as [data|e]; cbn; eexists; (split; [reflexivity|]);
        [|constructor].
      unfold simulatorsOf. apply Forall_flat_map. intros [runtime devs] _.
      apply Forall_flat_map. intros sd _.
      destruct (Simctl.isAvailable sd) eqn:E; [|constructor].
      constructor; [|constructor]. unfold P. cbn. repeat split.
    - eexists; split; [reflexivity | constructor]. }
  assert (Hctl : forall sh tr, exists ds,
             listDevicesWithDevicectl' sh tr
             = ((tr ++ [devicectlCommand])%list, Return ds) /\ Forall Q ds).
  { intros sh0 tr0.
    unfold Manager.listDevicesWithDevicectl, tryCatch, bind, execAsync, lift, ret.
    fold devicectlCommand.
    destruct (sh0 tr0 devicectlCommand) as [out|e]; cbn.
    - destruct (parseDevicectl out) as [data|e]; cbn; eexists; (split; [reflexivity|]);
        [|constructor].
      unfold devicectlDevicesOf. apply Forall_flat_map. intros d _.
      destruct (isTransport d "wired" || isTransport d "network"); [|constructor].
      constructor; [|constructor]. unfold Q. cbn.
      destruct (isTransport d "wired"); auto.
    - eexists; split; [reflexivity | constructor]. }
  assert (Hins : forall sh tr, exists ds,
             listDevicesWithInstruments' sh tr
             = ((tr ++ [xctraceCommand])%list, Return ds) /\ Forall Q ds).
  { intros sh0 tr0.
    unfold Manager.listDevicesWithInstruments, tryCatch, bind, execAsync, ret.
    fold xctraceCommand.
    destruct (sh0 tr0 xctraceCommand) as [out|e]; cbn;
      eexists; (split; [reflexivity|]); [|constructor].
    unfold instrumentsDevicesOf. apply Forall_flat_map. intros l _.
    destruct (xctraceLine l) as [[[m1 m2] m3]|]; [|constructor].
    destruct (negb _); [|constructor].
    constructor; [|constructor]. unfold Q. cbn. auto. }
  destruct (Hsims sh tr) as [sims [Hs HP]].
  assert (Hreal : exists reals,
             snd (listRealDevices' sh (tr ++ [simctlCommand])%list) = Return reals
             /\ Forall Q reals).
  { unfold Manager.listRealDevices, tryCatch, bind.
    destruct (Hctl sh (tr ++ [simctlCommand])%list) as [ds [-> HQ]].
    destruct ds as [|d ds]; cbn.
    - destruct (Hins sh ((tr ++ [simctlCommand]) ++ [devicectlCommand])%list)
        as [ds' [-> HQ']].
      cbn. now exists ds'.
    - now exists (d :: ds). }
  destruct Hreal as [reals [Hr HQ]].
  exists sims, reals. split; [|split; assumption].
  unfold Manager.listAllDevices, bind. rewrite Hs.
  destruct (listRealDevices' sh (tr ++ [simctlCommand])%list) as [tr2 o].
  cbn in Hr. now subst o.
Qed.

End CatalogMore.

(** * More on the build session *)
Section BuildMore.
Import JsString Regex Spec Spec2.

Variable A : Type.
Variable host : Build.Env.
Variable options : Build.BuildOptions.
Variable onProgress : option (string -> list A).
Variable startTime : Z.

Abbreviation run' := (Build.run A host options onProgress startTime).
Abbreviation step' := (Build.step A host options onProgress startTime).
Abbreviation started' := (Build.started A).





(** X12. The result of a build depends on the text of the two streams, not
    on how it was cut into chunks nor on how the chunks of the two streams
    were interleaved: two runs with the same stdout text and the same stderr
    text, closed with the same code at the same time, resolve alike. *)
Theorem result_ignores_chunking :
  forall (chunks1 chunks2 : list Chunk) (code : option Z) (now : Z),
    stdoutText chunks1 = stdoutText chunks2 ->
    stderrText chunks1 = stderrText chunks2 ->
    option_map (Build.resolved A)
      (run' (map toEvent chunks1 ++ [Build.Close code now])%list started')
    = option_map (Build.resolved A)
        (run' (map toEvent chunks2 ++ [Build.Close code now])%list started').
Proof.
  intros chunks1 chunks2 code now Hout Herr. rewrite !run_app.
  destruct (run_chunks A host options onProgress startTime chunks1 started')
    as [st1 [-> [Ho1 [He1 [Hr1 _]]]]].
  destruct (run_chunks A host options onProgress startTime chunks2 started')
    as [st2 [-> [Ho2 [He2 [Hr2 _]]]]].
  cbn [Build.run Build.step]. unfold Build.onClose.
  change (Build.buildOutput A (Build.clearProcess A st1)) with (Build.buildOutput A st1).
  change (Build.buildOutput A (Build.clearProcess A st2)) with (Build.buildOutput A st2).
  change (Build.errorOutput A (Build.clearProcess A st1)) with (Build.errorOutput A st1).
  change (Build.errorOutput A (Build.clearProcess A st2)) with (Build.errorOutput A st2).
  rewrite Ho1, Ho2, He1, He2, Hout, Herr.
  destruct code as [[| |]|]; try destruct (appPathRegExp _ _); cbn; try reflexivity;
    now rewrite Hr1, Hr2.
Qed.

End BuildMore.

Section ProgressMessages.
Import JsString Regex Spec Spec2.

Lemma append_inv_tail (a b s : string) : a ++ s = b ++ s -> a = b.
Proof.
  revert b. induction a as [|x a IH]; intros [|y b] H; cbn in H.
  - reflexivity.
  - apply (f_equal String.length) in H. cbn in H. rewrite length_append in H. lia.
  - apply (f_equal String.length) in H. cbn in H. rewrite length_append in H. lia.
  - injection H as -> H. now rewrite (IH b H).
Qed.

Lemma transitions_noRepeat (prev : string) (ps : list string) :
  noRepeat (prev :: transitions prev ps).
Proof.
  revert prev. induction ps as [|k ps IH]; intros prev; cbn [transitions].
  - exact I.
  - destruct (k =? prev) eqn:E; [apply IH|].
    split; [|apply IH]. apply String.eqb_neq in E. congruence.
Qed.

Lemma transitions_incl (prev : string) (ps : list string) (k : string) :
  In k (transitions prev ps) -> In k ps.
Proof.
  revert prev. induction ps as [|p ps IH]; intros prev; cbn [transitions]; [auto|].
  destruct (p =? prev).
  - intros H. right. eapply IH; eauto.
  - intros [-> | H]; [now left | right; eapply IH; eauto].
Qed.

Lemma chunkPhases_phases (chunks : list Chunk) (k : string) :
  In k (chunkPhases chunks) -> In k phases.
Proof.
  induction chunks as [|[text|text] chunks IH]; cbn [chunkPhases]; [intros [] | | exact IH].
  destruct (phaseMatch text) as [k'|] eqn:E; [|exact IH].
  intros [<- | H]; [|now apply IH]. now apply phaseMatch_spec in E.
Qed.

Lemma noRepeat_map (f : string -> string) (l : list string) :
  (forall a b, f a = f b -> a = b) -> noRepeat l -> noRepeat (map f l).
Proof.
  intros Hf. induction l as [|a [|b l] IH]; cbn; auto.
  intros [Hab Hr]. split; [intros H; apply Hab; now apply Hf | now apply IH].
Qed.

(** X13. The progress messages a caller receives are each one of the eight
    phase keywords followed by three dots, and no message is the same as the
    one before it. *)
Theorem progress_messages_never_repeat :
  forall (host : Build.Env) (options : Build.BuildOptions) (startTime : Z)
         (chunks : list Chunk) (st : Build.State string),
    Build.run string host options keepMessages startTime
      (map toEvent chunks) (Build.started string) = Some st ->
    noRepeat (Build.notified string st) /\
    Forall (fun m => exists k, In k phases /\ m = k ++ "...")
           (Build.notified string st).
Proof.
  intros host options startTime chunks st Hrun.
  destruct (run_chunks string host options keepMessages startTime chunks
              (Build.started string)) as [st' [Hrun' [_ [_ [_ Hnot]]]]].
  rewrite Hrun in Hrun'. injection Hrun' as <-. rewrite Hnot. cbn [Build.started
    Build.notified Build.lastPhase app].
  assert (Hmap : forall ks, notifyAll keepMessages ks = map (fun k => k ++ "...") ks).
  { induction ks as [|k ks IH]; cbn; [reflexivity | now rewrite <- IH]. }
  rewrite Hmap. split.
  - apply noRepeat_map; [intros a b; apply append_inv_tail|].
    pose proof (transitions_noRepeat "" (chunkPhases chunks)) as H.
    destruct (transitions "" (chunkPhases chunks)); [exact I | apply H].
  - apply Forall_forall. intros m Hm. apply in_map_iff in Hm as [k [<- Hk]].
    exists k. split; [|reflexivity].
    eapply chunkPhases_phases, transitions_incl; eauto.
Qed.

End ProgressMessages.

(** * Project discovery *)
Section ProjectFacts.
Import JsString Host Spec Spec2.

Lemma preferWorkspaces_filter (all l : list Build.XcodeProject) :
  flat_map
    (fun proj =>
       if negb (Project.isWorkspace proj) then
         if negb (Project.hasWorkspace all proj) then [proj] else []
       else [proj]) l
  = filter (keptProject all) l.
Proof.
  induction l as [|p l IH]; cbn [flat_map filter]; [reflexivity|].
  rewrite IH. unfold keptProject.
  destruct (Project.isWorkspace p); cbn; [reflexivity|].
  now destruct (Project.hasWorkspace all p).
Qed.

Lemma hasWorkspace_spec (all : list Build.XcodeProject) (p : Build.XcodeProject) :
  Project.hasWorkspace all p = true <->
  exists q, In q all /\ Project.isWorkspace q = true /\ Build.name q = Build.name p.
Proof.
  unfold Project.hasWorkspace. rewrite existsb_exists. split.
  - intros [q [Hin H]]. apply andb_true_iff in H as [Hn Hw].
    apply String.eqb_eq in Hn. now exists q.
  - intros [q [Hin [Hw Hn]]]. exists q. split; [exact Hin|].
    apply andb_true_iff. split; [now apply String.eqb_eq | exact Hw].
Qed.

Lemma filter_all {T} (f : T -> bool) (l : list T) :
  (forall x, In x l -> f x = true) -> filter f l = l.
Proof.
  intros H. induction l as [|x l IH]; cbn; [reflexivity|].
  rewrite (H x) by now left. rewrite IH; [reflexivity|].
  intros y Hy. apply H. now right.
Qed.

(** X14. The last step of [findXcodeProjects] keeps every workspace, and
    keeps a project exactly when no workspace of its name was found.  So no
    kept project shares its name with a workspace, every name that was found
    is still found, and running the step again changes nothing. *)
Theorem workspaces_are_preferred :
  forall (all : list Build.XcodeProject),
    let kept := Project.preferWorkspaces all in
    (forall p, In p kept <->
               In p all /\
               (Project.isWorkspace p = true \/
                forall q, In q all -> Project.isWorkspace q = true ->
                          Build.name q <> Build.name p)) /\
    (forall p q, In p kept -> In q kept ->
                 Project.isWorkspace p = false -> Project.isWorkspace q = true ->
                 Build.name q <> Build.name p) /\
    (forall p, In p all -> exists q, In q kept /\ Build.name q = Build.name p) /\
    Project.preferWorkspaces kept = kept.
Proof.
  intros all kept.
  assert (Hkept : kept = filter (keptProject all) all)
    by apply preferWorkspaces_filter.
  assert (Hin : forall p, In p kept <->
              In p all /\
              (Project.isWorkspace p = true \/
               forall q, In q all -> Project.isWorkspace q = true ->
                         Build.name q <> Build.name p)).
  { intros p. rewrite Hkept, filter_In. unfold keptProject.
    rewrite orb_true_iff, negb_true_iff. split; intros [Hp H]; (split; [exact Hp|]).
    - destruct H as [H | H]; [now left | right].
      intros q Hq Hw Hn.
      assert (Project.hasWorkspace all p = true)
        by (apply hasWorkspace_spec; now exists q).
      congruence.
    - destruct H as [H | H]; [now left | right].
      destruct (Project.hasWorkspace all p) eqn:E; [|reflexivity].
      apply hasWorkspace_spec in E as [q [Hq [Hw Hn]]]. now elim (H q Hq Hw). }
  split; [exact Hin|]. split; [|split].
  - intros p q Hp Hq Hpw Hqw. apply Hin in Hp as [_ [Hp | Hp]]; [congruence|].
    apply Hin in Hq as [Hq _]. now apply Hp.
  - intros p Hp. destruct (Project.isWorkspace p) eqn:Ew.
    + exists p. split; [|reflexivity]. apply Hin. auto.
    + destruct (Project.hasWorkspace all p) eqn:E.
      * apply hasWorkspace_spec in E as [q [Hq [Hw Hn]]].
        exists q. split; [|exact Hn]. apply Hin. auto.
      * exists p. split; [|reflexivity]. rewrite Hkept. apply filter_In.
        split; [exact Hp|]. unfold keptProject. now rewrite Ew, E.
  - unfold Project.preferWorkspaces at 1. rewrite preferWorkspaces_filter.
    apply filter_all. intros p Hp. unfold keptProject.
    destruct (Project.isWorkspace p) eqn:Ew; [reflexivity|]. cbn.
    apply negb_true_iff. destruct (Project.hasWorkspace kept p) eqn:E; [|reflexivity].
    apply hasWorkspace_spec in E as [q [Hq [Hw Hn]]].
    apply Hin in Hp as [_ [Hp | Hp]]; [congruence|].
    apply Hin in Hq as [Hq _]. now elim (Hp q Hq Hw).
Qed.

(** X15. [getSchemes] never throws.  It runs one [xcodebuild -list -json]
    command, with [-workspace] or [-project] after the kind of the project;
    when the command fails or its output does not parse there are no
    schemes; otherwise the schemes are the names listed under the key of
    that kind, in their order, and none when the key is missing. *)
Theorem getSchemes_never_throws :
  forall (parseList : string -> Outcome Project.ListJson.Output)
         (sh : Shell) (tr : list string) (project : Build.XcodeProject),
    let cmd :=
      "xcodebuild " ++ (if Project.isWorkspace project then "-workspace" else "-project")
      ++ " " ++ dq ++ Build.path project ++ dq ++ " -list -json" in
    exists schemes,
      Project.getSchemes parseList project sh tr = ((tr ++ [cmd])%list, Return schemes) /\
      (queryFails parseList sh tr cmd -> schemes = []) /\
      (forall out data,
          sh tr cmd = Return out -> parseList out = Return data ->
          map Project.name schemes
          = match (if Project.isWorkspace project
                   then Project.ListJson.workspace_schemes data
                   else Project.ListJson.project_schemes data) with
            | Some names => names
            | None => []
            end).
Proof.
  intros parseList sh tr project cmd.
  unfold Project.getSchemes, tryCatch, bind, execAsync, lift, ret, queryFails.
  fold cmd.
  destruct (sh tr cmd) as [out|e]; cbn.
  - destruct (parseList out) as [data|e] eqn:Ep; cbn; eexists;
      (split; [reflexivity|]); (split; [try (intros []); auto|]).
    + intros out' data' H H'. injection H as <-. rewrite Ep in H'. injection H' as <-.
      rewrite map_map. cbn. apply map_id.
    + intros out' data' H H'. injection H as <-. congruence.
  - eexists. split; [reflexivity|]. split; [auto|]. discriminate.
Qed.

(** *** [trim] *)

Lemma trimStart_head (s : string) : headNotSpace (trimStart s).
Proof.
  induction s as [|c s IH]; cbn; [now left|].
  destruct (isWhiteSpace c) eqn:E; [exact IH|]. right. now exists c, s.
Qed.

Lemma trimStart_id (s : string) : headNotSpace s -> trimStart s = s.
Proof.
  intros [-> | [c [r [-> Hc]]]]; cbn; [reflexivity | now rewrite Hc].
Qed.

Lemma trimEnd_head (s : string) : headNotSpace s -> headNotSpace (trimEnd s).
Proof.
  intros [-> | [c [r [-> Hc]]]]; cbn; [now left|].
  right. destruct (trimEnd r); [rewrite Hc|]; eauto.
Qed.

Lemma trimEnd_idem (s : string) : trimEnd (trimEnd s) = trimEnd s.
Proof.
  induction s as [|c s IH]; cbn; [reflexivity|].
  destruct (trimEnd s) as [|d t] eqn:E.
  - destruct (isWhiteSpace c) eqn:Ec; cbn; [reflexivity | now rewrite Ec].
  - cbn [trimEnd]. cbn [trimEnd] in IH. now rewrite IH.
Qed.

Lemma trim_idem (s : string) : trim (trim s) = trim s.
Proof.
  unfold trim.
  rewrite (trimStart_id (trimEnd (trimStart s)))
    by apply trimEnd_head, trimStart_head.
  apply trimEnd_idem.
Qed.

Lemma trimStart_split (s : string) :
  exists pre, s = pre ++ trimStart s /\ allWhiteSpace pre = true.
Proof.
  induction s as [|c s [pre [Hs Hpre]]]; cbn.
  - now exists "".
  - destruct (isWhiteSpace c) eqn:E.
    + exists (String c pre). cbn. rewrite <- Hs. unfold allWhiteSpace in *. cbn.
      now rewrite E, Hpre.
    + now exists "".
Qed.

Lemma trimEnd_split (s : string) :
  exists post, s = trimEnd s ++ post /\ allWhiteSpace post = true.
Proof.
  induction s as [|c s [post [Hs Hpost]]]; cbn.
  - now exists "".
  - destruct (trimEnd s) as [|d t] eqn:E.
    + cbn in Hs. subst post. destruct (isWhiteSpace c) eqn:Ec.
      * exists (String c s). split; [reflexivity|]. unfold allWhiteSpace in *. cbn.
        now rewrite Ec, Hpost.
      * now exists s.
    + exists post. cbn in Hs |- *. now rewrite <- Hs.
Qed.

(** X16. [getBundleIdentifier] never throws.  It reads the key
    CFBundleIdentifier of the Info.plist under
    [<derivedDataPath>/Build/Products/Debug-iphonesimulator/<scheme>.app]
    with one command; when the command fails the answer is undefined,
    otherwise it is the output with the white space around it taken off,
    and nothing else. *)
Theorem getBundleIdentifier_trims_the_output :
  forall (sh : Shell) (tr : list string) (project : Build.XcodeProject)
         (scheme derivedDataPath : string),
    let appPath :=
      Path.join [derivedDataPath; "Build/Products/Debug-iphonesimulator";
                 scheme ++ ".app"] in
    let cmd :=
      "defaults read " ++ dq ++ appPath ++ "/Info.plist" ++ dq ++ " CFBundleIdentifier" in
    fst (Project.getBundleIdentifier project scheme derivedDataPath sh tr)
    = (tr ++ [cmd])%list /\
    match sh tr cmd with
    | Throw _ =>
        snd (Project.getBundleIdentifier project scheme derivedDataPath sh tr)
        = Return None
    | Return out =>
        exists id pre post,
          snd (Project.getBundleIdentifier project scheme derivedDataPath sh tr)
          = Return (Some id) /\
          out = pre ++ id ++ post /\
          allWhiteSpace pre = true /\ allWhiteSpace post = true /\
          trimmed id
    end.
Proof.
  intros sh tr project scheme derivedDataPath appPath cmd.
  unfold Project.getBundleIdentifier, tryCatch, bind, execAsync, ret.
  fold appPath. fold cmd.
  destruct (sh tr cmd) as [out|e]; cbn; (split; [reflexivity|]); [|reflexivity].
  destruct (trimStart_split out) as [pre [Hpre Hw]].
  destruct (trimEnd_split (trimStart out)) as [post [Hpost Hw']].
  exists (trim out), pre, post. split; [reflexivity|].
  split; [|split; [exact Hw | split; [exact Hw' | apply trim_idem]]].
  unfold trim. now rewrite <- Hpost.
Qed.

End ProjectFacts.

(** * The device picker *)
Section PickerFacts.
Import JsString Manager Spec Spec2.

Local Arguments versionOf : simpl never.
Local Arguments String.eqb : simpl never.
Local Arguments append : simpl never.

Lemma has_spec (g : Extension.Grouped) (v : string) :
  Extension.has g v = true <-> In v (map fst g).
Proof.
  unfold Extension.has. rewrite existsb_exists, in_map_iff. split.
  - intros [e [He H]]. apply String.eqb_eq in H. now exists e.
  - intros [e [H He]]. exists e. split; [exact He | now apply String.eqb_eq].
Qed.

Lemma push_keys (v : string) (s : Device) (g : Extension.Grouped) :
  map fst (Extension.push v s g) = map fst g.
Proof.
  unfold Extension.push. rewrite map_map. apply map_ext.
  intros e. now destruct (fst e =? v).
Qed.

Lemma push_absent (v : string) (s : Device) (g : Extension.Grouped) :
  ~ In v (map fst g) -> Extension.push v s g = g.
Proof.
  unfold Extension.push. induction g as [|e g IH]; cbn; [reflexivity|].
  intros H. destruct (String.eqb_spec (fst e) v) as [E|E]; [elim H; now left|].
  rewrite IH; [reflexivity | tauto].
Qed.

Lemma under_app (v : string) (l1 l2 : list Device) :
  under v (l1 ++ l2)%list = (under v l1 ++ under v l2)%list.
Proof. unfold under. apply filter_app. Qed.

Lemma under_none (v : string) (l : list Device) :
  (forall d, In d l -> versionOf d <> v) -> under v l = [].
Proof.
  unfold under. induction l as [|d l IH]; cbn; [reflexivity|]. intros H.
  destruct (String.eqb_spec (versionOf d) v) as [E|E]; [elim (H d); auto|].
  apply IH. intros d' Hd'. apply H. now right.
Qed.

(** A simulator pushed under its label goes to the end of the group of that
    label and leaves the other groups alone. *)
Lemma push_groups (s : Device) (g : Extension.Grouped) (done : list Device) :
  Forall (fun e => snd e <> [] /\ snd e = under (fst e) done) g ->
  Forall (fun e => snd e <> [] /\ snd e = under (fst e) (done ++ [s])%list)
         (Extension.push (versionOf s) s g).
Proof.
  intros Hall. unfold Extension.push. apply Forall_map.
  eapply Forall_impl; [|exact Hall]. cbn. intros e [Hne He].
  rewrite under_app.
  destruct (String.eqb_spec (fst e) (versionOf s)) as [E|E]; cbn [fst snd].
  - split; [now destruct (snd e)|]. rewrite He at 1. f_equal.
    unfold under. cbn [filter]. now rewrite E, String.eqb_refl.
  - split; [exact Hne|]. rewrite He at 1. unfold under at 3. cbn [filter].
    destruct (String.eqb_spec (versionOf s) (fst e)); [congruence|].
    now rewrite app_nil_r.
Qed.

Lemma push_present (v : string) (s : Device) (g : Extension.Grouped) :
  NoDup (map fst g) -> In v (map fst g) ->
  Permutation (List.concat (map snd (Extension.push v s g)))
              (List.concat (map snd g) ++ [s])%list.
Proof.
  induction g as [|e g IH]; cbn; [intros _ []|].
  intros Hnd Hin. inversion Hnd as [|k ks Hk Hnd']; subst.
  destruct (String.eqb_spec (fst e) v) as [E|E].
  - fold (Extension.push v s g). rewrite push_absent by (rewrite <- E; exact Hk).
    cbn. rewrite <- !app_assoc. apply Permutation_app_head.
    apply Permutation_app_comm.
  - destruct Hin as [Hin | Hin]; [congruence|].
    fold (Extension.push v s g). rewrite <- app_assoc.
    apply Permutation_app_head. now apply IH.
Qed.

Lemma addSimulator_groups (s : Device) (g : Extension.Grouped) (done : list Device) :
  groupsOf done g -> groupsOf (done ++ [s])%list (addSimulator g s).
Proof.
  intros (Hnd & Hcov & Hall & Hperm). unfold addSimulator.
  destruct (Extension.has g (versionOf s)) eqn:Eh; cbn [negb].
  - apply has_spec in Eh. repeat split.
    + now rewrite push_keys.
    + rewrite push_keys. intros d Hd. apply in_app_iff in Hd as [Hd | [<- | []]]; auto.
    + now apply push_groups.
    + rewrite push_present by assumption. now apply Permutation_app_tail.
  - assert (Hno : ~ In (versionOf s) (map fst g)).
    { intros H. apply has_spec in H. congruence. }
    assert (Hnew : Extension.push (versionOf s) s (g ++ [(versionOf s, [])])%list
                   = (g ++ [(versionOf s, [s])])%list).
    { unfold Extension.push. rewrite map_app. fold (Extension.push (versionOf s) s g).
      rewrite push_absent by exact Hno. cbn. now rewrite String.eqb_refl. }
    rewrite Hnew. repeat split.
    + rewrite map_app. cbn. apply NoDup_app; [exact Hnd | repeat constructor; auto | ].
      intros k Hk [<- | []]. contradiction.
    + rewrite map_app. intros d Hd. apply in_app_iff.
      apply in_app_iff in Hd as [Hd | [<- | []]]; [left; auto | right; now left].
    + apply Forall_app. split.
      * rewrite Forall_forall in Hall |- *. intros e He.
        destruct (Hall e He) as [Hne Hu]. split; [exact Hne|].
        rewrite under_app, <- Hu. unfold under at 1. cbn.
        destruct (String.eqb_spec (versionOf s) (fst e)) as [E|E].
        -- elim Hno. rewrite E. now apply in_map.
        -- now rewrite app_nil_r.
      * constructor; [|constructor]. cbn. split; [discriminate|].
        rewrite under_app, under_none.
        -- unfold under. cbn. now rewrite String.eqb_refl.
        -- intros d Hd E. apply Hno. rewrite <- E. now apply Hcov.
    + rewrite map_app, concat_app. cbn. now apply Permutation_app_tail.
Qed.

Lemma groupByVersion_groups (sims done : list Device) (g : Extension.Grouped) :
  groupsOf done g -> groupsOf (done ++ sims)%list (fold_left addSimulator sims g).
Proof.
  revert done g. induction sims as [|s sims IH]; intros done g Hg; cbn.
  - now rewrite app_nil_r.
  - replace (done ++ s :: sims)%list with ((done ++ [s]) ++ sims)%list
      by now rewrite <- app_assoc.
    apply IH. now apply addSimulator_groups.
Qed.

(** X17. The picker groups the simulators by version label: the labels are
    distinct, no group is empty, the group of a label holds exactly the
    simulators of that version in the order in which they were listed, and
    every simulator is in one group. *)
Theorem simulators_are_grouped_by_version :
  forall (simulators : list Device),
    let grouped := Extension.groupByVersion simulators in
    NoDup (map fst grouped) /\
    Forall (fun e => snd e <> [] /\
                     snd e = filter (fun d => "iOS " ++ osVersion d =? fst e) simulators)
           grouped /\
    (forall d, In d simulators -> In ("iOS " ++ osVersion d) (map fst grouped)) /\
    Permutation (List.concat (map snd grouped)) simulators.
Proof.
  intros simulators grouped.
  assert (H : groupsOf ([] ++ simulators)%list grouped).
  { apply (groupByVersion_groups simulators [] []). unfold groupsOf. cbn.
    split; [constructor|]. split; [intros d []|]. split; constructor. }
  destruct H as (Hnd & Hcov & Hall & Hperm). cbn [app] in *.
  split; [exact Hnd|]. split; [exact Hall|]. split; [exact Hcov | exact Hperm].
Qed.

Lemma offered_app (l1 l2 : list Extension.Item) :
  offered (l1 ++ l2)%list = (offered l1 ++ offered l2)%list.
Proof.
  induction l1 as [|[lbl | lbl desc det d] l1 IH]; cbn; [reflexivity | exact IH|].
  now rewrite IH.
Qed.

Lemma offered_entries (f : Device -> Extension.Item) (l : list Device) :
  (forall d, exists lbl desc det, f d = Extension.Entry lbl desc det d) ->
  offered (map f l) = l.
Proof.
  intros Hf. induction l as [|d l IH]; cbn; [reflexivity|].
  destruct (Hf d) as [lbl [desc [det ->]]]. cbn. now rewrite IH.
Qed.

Lemma filter_partition (l : list Device) :
  Permutation (filter Extension.isRealDevice l ++ filter Extension.isSimulator l)%list l.
Proof.
  induction l as [|d l IH]; cbn; [constructor|].
  unfold Extension.isRealDevice, Extension.isSimulator at 1.
  destruct (type d); cbn.
  - apply Permutation_sym, Permutation_cons_app, Permutation_sym, IH.
  - now constructor.
Qed.

(** X18. The items of the device picker offer every listed device exactly
    once: the devices of its entries are those of the list, the physical
    devices first and then the simulators group by group. *)
Theorem picker_offers_every_device_once :
  forall (devices : list Device),
    Permutation (offered (Extension.deviceItems devices)) devices /\
    offered (Extension.deviceItems devices)
    = (filter Extension.isRealDevice devices
       ++ List.concat (map snd (Extension.groupByVersion
                                  (filter Extension.isSimulator devices))))%list.
Proof.
  intros devices.
  assert (Heq : offered (Extension.deviceItems devices)
                = (filter Extension.isRealDevice devices
                   ++ List.concat (map snd (Extension.groupByVersion
                                              (filter Extension.isSimulator devices))))%list).
  { unfold Extension.deviceItems. rewrite offered_app. f_equal.
    - destruct (filter Extension.isRealDevice devices) as [|d l] eqn:E; [reflexivity|].
      cbn [List.length Nat.ltb Nat.leb offered]. rewrite <- E.
      apply offered_entries. intros d0. unfold Extension.realDeviceItem. eauto.
    - destruct (filter Extension.isSimulator devices) as [|d l] eqn:E; [reflexivity|].
      cbn [List.length Nat.ltb Nat.leb offered]. rewrite <- E.
      induction (Extension.groupByVersion (filter Extension.isSimulator devices))
        as [|e g IH]; cbn [flat_map map List.concat]; [reflexivity|].
      rewrite offered_app. cbn [offered]. rewrite IH. f_equal.
      apply offered_entries. intros d0. unfold Extension.simulatorItem. eauto. }
  split; [|exact Heq]. rewrite Heq.
  assert (Hg : groupsOf ([] ++ filter Extension.isSimulator devices)%list
                 (Extension.groupByVersion (filter Extension.isSimulator devices))).
  { apply (groupByVersion_groups (filter Extension.isSimulator devices) [] []).
    unfold groupsOf. cbn.
    split; [constructor|]. split; [intros d []|]. split; constructor. }
  destruct Hg as (_ & _ & _ & Hperm). cbn [app] in Hperm.
  rewrite Hperm. apply filter_partition.
Qed.

End PickerFacts.

(** * The path handed from [runApp] to [getBundleIdentifier] *)
Section DerivedDataFacts.
Import JsString Spec Spec2.

Lemma includes_tail (c : ascii) (s p : string) :
  includes (String c s) p = false -> includes s p = false.
Proof.
  cbn [includes]. intros H. apply orb_false_iff in H. tauto.
Qed.

Lemma dropWhile_all (f : ascii -> bool) (s : string) :
  JsString.forallb f s = true -> dropWhile f s = "".
Proof.
  induction s as [|c s IH]; cbn; [reflexivity|].
  intros H. apply andb_true_iff in H as [-> H]. now apply IH.
Qed.

(** Inside [base], before the marker, no match can start. *)
Lemma no_match_in_base (base rest : string) :
  base <> "" -> includes base "/Build/Products" = false ->
  stripPrefix "/Build/Products/" (base ++ "/Build/Products/" ++ rest) = None.
Proof.
  intros Hne Hinc.
  destruct (stripPrefix _ _) as [r|] eqn:E; [exfalso | reflexivity].
  apply stripPrefix_spec in E.
  destruct base as [|c0 b]; [now elim Hne|].
  cbn in E. injection E as -> E.
  do 14 (destruct b as [|? b]; cbn in E; [discriminate|]; injection E as -> E).
  assert (H : includes ("/Build/Products" ++ b) "/Build/Products" = true).
  { apply includes_spec. now exists "", b. }
  cbn [append] in H. congruence.
Qed.

(** X19. The path [runApp] hands on is the app path with its
    "/Build/Products/..." end taken off: for an app path made of a directory
    that does not contain "/Build/Products", then "/Build/Products/", then
    anything on one line, it is that directory again. *)
Theorem derivedDataOf_round_trip :
  forall (base rest : string),
    includes base "/Build/Products" = false ->
    JsString.forallb notLineTerminator rest = true ->
    Extension.derivedDataOf (base ++ "/Build/Products/" ++ rest) = base.
Proof.
  intros base rest Hinc Hrest. induction base as [|c b IH].
  - cbn [append Extension.derivedDataOf].
    change (stripPrefix "/Build/Products/" ("/Build/Products/" ++ rest))
      with (Some rest).
    now apply dropWhile_all.
  - change (String c b ++ "/Build/Products/" ++ rest)
      with (String c (b ++ "/Build/Products/" ++ rest)).
    cbn [Extension.derivedDataOf].
    change (String c (b ++ "/Build/Products/" ++ rest))
      with (String c b ++ "/Build/Products/" ++ rest) at 1.
    rewrite no_match_in_base; [|discriminate | exact Hinc].
    f_equal. apply IH. eapply includes_tail; eauto.
Qed.

(** X20. An app path without "/Build/Products/" is handed on as it is. *)
Theorem derivedDataOf_keeps_other_paths :
  forall (appPath : string),
    includes appPath "/Build/Products/" = false ->
    Extension.derivedDataOf appPath = appPath.
Proof.
  induction appPath as [|c s IH]; intros H.
  - reflexivity.
  - cbn [Extension.derivedDataOf].
    destruct (stripPrefix "/Build/Products/" (String c s)) as [r|] eqn:E.
    + apply stripPrefix_spec in E.
      assert (includes (String c s) "/Build/Products/" = true).
      { apply includes_spec. exists "", r. now rewrite E. }
      congruence.
    + f_equal. apply IH. eapply includes_tail; eauto.
Qed.

End DerivedDataFacts.

(** * The older listing of simulators *)
Section LegacyListFacts.
Import JsString Host Spec Spec2.

Variable parseSimctl : string -> Outcome Simctl.Output.
Variable localeCompare : string -> string -> Z.

Abbreviation compare' := (SimulatorList.compareSimulators localeCompare).







End LegacyListFacts.

(** * The version of a simulator runtime *)
Section RuntimeFacts.
Import JsString Regex Spec Spec2.

Lemma dropWhile_append (f : ascii -> bool) (m post : string) :
  JsString.forallb f m = true -> endOrNext (fun c => negb (f c)) post ->
  dropWhile f (m ++ post) = post.
Proof.
  intros Hm Hpost. induction m as [|c m IH]; cbn in *.
  - destruct Hpost as [-> | [c [r [-> Hc]]]]; cbn; [reflexivity|].
    apply negb_true_iff in Hc. now rewrite Hc.
  - apply andb_true_iff in Hm as [-> Hm]. auto.
Qed.

Lemma twoNumbersHere_found (major minor rest : string) :
  major <> "" -> allDigits major = true ->
  minor <> "" -> allDigits minor = true ->
  endOrNext (fun c => negb (isDigit c)) rest ->
  twoNumbersHere "iOS-" "-" ("iOS-" ++ major ++ "-" ++ minor ++ rest)
  = Some (major, minor).
Proof.
  intros Hm1 Hd1 Hm2 Hd2 Hrest. unfold twoNumbersHere.
  rewrite stripPrefix_append.
  assert (Hsep : endOrNext (fun c => negb (isDigit c)) ("-" ++ minor ++ rest)).
  { right. exists "-"%char, (minor ++ rest). split; reflexivity. }
  rewrite (takeWhile_append isDigit major _ Hd1 Hsep).
  rewrite (dropWhile_append isDigit major _ Hd1 Hsep).
  destruct major as [|a major]; [now elim Hm1|].
  cbn [append]. rewrite Ascii.eqb_refl.
  rewrite (takeWhile_append isDigit minor _ Hd2 Hrest).
  destruct minor as [|b minor]; [now elim Hm2 | reflexivity].
Qed.

Lemma no_runtime_in_prefix (pre t : string) :
  pre <> "" -> includes pre "iOS-" = false ->
  stripPrefix "iOS-" (pre ++ "iOS-" ++ t) = None.
Proof.
  intros Hne Hinc.
  destruct (stripPrefix _ _) as [r|] eqn:E; [exfalso | reflexivity].
  apply stripPrefix_spec in E.
  destruct pre as [|c0 b]; [now elim Hne|].
  cbn in E. injection E as -> E.
  do 3 (destruct b as [|? b]; cbn in E; [discriminate|]; injection E as -> E).
  assert (H : includes ("iOS-" ++ b) "iOS-" = true).
  { apply includes_spec. now exists "", b. }
  cbn [append] in H. congruence.
Qed.

Lemma twoNumbers_here (p : string) (sep : ascii) (s : string) (m : string * string) :
  twoNumbersHere p sep s = Some m -> twoNumbers p sep s = Some m.
Proof. intros H. destruct s; cbn [twoNumbers]; now rewrite H. Qed.

(** X22. The version of a simulator is read off its runtime identifier: for
    an identifier made of a prefix without "iOS-", then "iOS-", a run of
    digits, a dash and a run of digits (and then no digit), it is the two
    runs joined by a dot. *)
Theorem simulatorOsVersion_reads_the_runtime :
  forall (pre major minor rest : string),
    includes pre "iOS-" = false ->
    major <> "" -> allDigits major = true ->
    minor <> "" -> allDigits minor = true ->
    endOrNext (fun c => negb (isDigit c)) rest ->
    Manager.simulatorOsVersion (pre ++ "iOS-" ++ major ++ "-" ++ minor ++ rest)
    = major ++ "." ++ minor.
Proof.
  intros pre major minor rest Hinc Hm1 Hd1 Hm2 Hd2 Hrest.
  unfold Manager.simulatorOsVersion, runtimeMatch.
  assert (H : twoNumbers "iOS-" "-" (pre ++ "iOS-" ++ major ++ "-" ++ minor ++ rest)
              = Some (major, minor)).
  { induction pre as [|c b IH].
    - apply twoNumbers_here. now apply twoNumbersHere_found.
    - change (String c b ++ "iOS-" ++ major ++ "-" ++ minor ++ rest)
        with (String c (b ++ "iOS-" ++ major ++ "-" ++ minor ++ rest)).
      cbn [twoNumbers].
      change (String c (b ++ "iOS-" ++ major ++ "-" ++ minor ++ rest))
        with (String c b ++ "iOS-" ++ major ++ "-" ++ minor ++ rest).
      unfold twoNumbersHere at 1.
      rewrite no_runtime_in_prefix; [|discriminate | exact Hinc].
      apply IH. eapply includes_tail; eauto. }
  now rewrite H.
Qed.

(** X23. A runtime identifier without "iOS-" (a tvOS, watchOS or visionOS
    runtime) gives the version "Unknown". *)
Theorem simulatorOsVersion_unknown_without_iOS :
  forall (runtime : string),
    includes runtime "iOS-" = false ->
    Manager.simulatorOsVersion runtime = "Unknown".
Proof.
  intros runtime Hinc. unfold Manager.simulatorOsVersion, runtimeMatch.
  assert (H : twoNumbers "iOS-" "-" runtime = None).
  { induction runtime as [|c s IH].
    - reflexivity.
    - cbn [twoNumbers]. unfold twoNumbersHere at 1.
      destruct (stripPrefix "iOS-" (String c s)) as [r|] eqn:E.
      + apply stripPrefix_spec in E.
        assert (includes (String c s) "iOS-" = true).
        { apply includes_spec. exists "", r. now rewrite E. }
        congruence.
      + apply IH. eapply includes_tail; eauto. }
  now rewrite H.
Qed.

End RuntimeFacts.

(** * The lines of a chunk *)
Section LineFacts.
Import JsString Manager Spec Spec2.

Lemma split_nonempty (sep : ascii) (s : string) : split sep s <> [].
Proof.
  induction s as [|c s IH]; cbn; [discriminate|].
  destruct (Ascii.eqb c sep); [discriminate|].
  destruct (split sep s); [contradiction | discriminate].
Qed.

Lemma concat_split (sep : ascii) (s : string) :
  String.concat (String sep "") (split sep s) = s.
Proof.
  induction s as [|c s IH]; cbn [split]; [reflexivity|].
  pose proof (split_nonempty sep s) as Hne.
  destruct (Ascii.eqb_spec c sep) as [->|Hc].
  - destruct (split sep s) as [|l ls]; [contradiction|].
    rewrite <- IH. reflexivity.
  - destruct (split sep s) as [|l ls]; [contradiction|].
    rewrite <- IH. destruct ls; reflexivity.
Qed.

Lemma split_pieces (sep : ascii) (s : string) :
  Forall (fun l => includes l (String sep "") = false) (split sep s).
Proof.
  induction s as [|c s IH]; cbn [split].
  - repeat constructor.
  - destruct (Ascii.eqb_spec c sep) as [->|Hc].
    + constructor; [reflexivity | exact IH].
    + pose proof (split_nonempty sep s) as Hne.
      destruct (split sep s) as [|l ls]; [contradiction|].
      inversion IH as [|l' ls' Hl Hls]; subst.
      constructor; [|exact Hls].
      cbn [includes]. rewrite Hl, orb_false_r.
      unfold startsWith. cbn. destruct (ascii_dec sep c); [congruence | reflexivity].
Qed.

(** X24. A chunk of output is cut exactly at its line feeds: the pieces hold
    no line feed and, joined by line feeds, give the chunk back; the callback
    gets the pieces that are not blank, in order, one call each.  (A line
    that arrives in two chunks is handed over as two pieces.) *)
Theorem chunk_is_cut_at_line_feeds :
  forall (A : Type) (f : string -> list A) (data : string),
    let pieces := split LF data in
    String.concat (String LF "") pieces = data /\
    Forall (fun l => includes l (String LF "") = false) pieces /\
    forLines f data = flat_map f (filter nonBlank pieces).
Proof.
  intros A f data pieces. split; [apply concat_split|].
  split; [apply split_pieces | apply forLines_filter].
Qed.

End LineFacts.

(** * Instances *)
Section MoreExamples.
Import JsString Regex Manager Spec Spec2.

Lemma stopLogStream_signals_witness :
  let w := fst (startLogStream (recorder sampleDevice (Some stdout)) initial) in
  exists p p',
    nth_error (processes w) 0 = Some p /\
    nth_error (processes (fst (stopLogStream w))) 0 = Some p' /\
    signals p' = ["SIGTERM"; "SIGTERM"].
Proof.
  intros w.
  destruct (nth_error (processes w) 0) as [p|] eqn:E; [|cbv in E; discriminate E].
  destruct (stopLogStream_signals_held_children Call w 0%nat p E)
    as [p' [Hp' [Hsig _]]].
  exists p, p'. split; [reflexivity|]. split; [exact Hp'|].
  rewrite Hsig. cbv in E. injection E as <-. reflexivity.
Defined.

Lemma console_close_witness :
  let o := recorder sampleDevice (Some stdout) in
  let w1 := fst (startLogStream o initial) in
  type (device o) = DeviceType.simulator /\
  modeOf o = stdout /\
  snd (emit 0 close "" w1) = [OnClose] /\
  isLogStreamRunning (fst (emit 0 close "" w1)) = true.
Proof.
  intros o w1. split; [reflexivity|]. split; [reflexivity|].
  destruct (console_close_leaves_stream_running Call o initial "" eq_refl eq_refl)
    as (Hout & _ & _ & Hrun).
  split; [exact Hout | exact Hrun].
Defined.

Lemma generation_counts_witness :
  let o := recorder sampleDevice (Some stdout) in
  let ops := [Start o; Stop; Start o; Emit 1 stdoutData "x"] in
  (Z.of_nat (starts ops) <= 2 ^ 53)%Z /\
  logProcessId (globals (fst (run ops initial))) = 2%Z.
Proof.
  intros o ops.
  assert (H : (Z.of_nat (starts ops) <= 2 ^ 53)%Z) by (cbv; discriminate).
  split; [exact H|].
  exact (generation_counts_the_starts Call ops H).
Defined.


Lemma result_ignores_chunking_witness :
  let chunks1 := [Out "ab"; Err "error: e"] in
  let chunks2 := [Err "error"; Out "a"; Err ": e"; Out "b"] in
  stdoutText chunks1 = stdoutText chunks2 /\
  stderrText chunks1 = stderrText chunks2 /\
  option_map (Build.resolved Call)
    (Build.run Call sampleHost sampleOptions recordProgress 0
       (map toEvent chunks1 ++ [Build.Close (Some 1%Z) 7])%list (Build.started Call))
  = option_map (Build.resolved Call)
      (Build.run Call sampleHost sampleOptions recordProgress 0
         (map toEvent chunks2 ++ [Build.Close (Some 1%Z) 7])%list (Build.started Call)).
Proof.
  intros chunks1 chunks2. split; [reflexivity|]. split; [reflexivity|].
  exact (result_ignores_chunking Call sampleHost sampleOptions recordProgress 0
           chunks1 chunks2 (Some 1%Z) 7 eq_refl eq_refl).
Defined.

Lemma progress_messages_witness :
  let chunks := [Out (line "Compile X"); Out (line "Link Z"); Out (line "Compile Y")] in
  exists st,
    Build.run string sampleHost sampleOptions keepMessages 0
      (map toEvent chunks) (Build.started string) = Some st /\
    noRepeat (Build.notified string st).
Proof.
  intros chunks. eexists. split; [reflexivity|].
  exact (proj1 (progress_messages_never_repeat sampleHost sampleOptions 0 chunks _
                  eq_refl)).
Defined.

Lemma derivedDataOf_round_trip_witness :
  let base := "/Users/dev/Library/Developer/Xcode/DerivedData/MyApp-abc" in
  let rest := "Debug-iphonesimulator/MyScheme.app" in
  includes base "/Build/Products" = false /\
  JsString.forallb notLineTerminator rest = true /\
  Extension.derivedDataOf (base ++ "/Build/Products/" ++ rest) = base.
Proof.
  intros base rest. split; [reflexivity|]. split; [reflexivity|].
  exact (derivedDataOf_round_trip base rest eq_refl eq_refl).
Defined.

Lemma derivedDataOf_keeps_witness :
  includes "/tmp/out/MyScheme.app" "/Build/Products/" = false /\
  Extension.derivedDataOf "/tmp/out/MyScheme.app" = "/tmp/out/MyScheme.app".
Proof.
  split; [reflexivity|].
  exact (derivedDataOf_keeps_other_paths "/tmp/out/MyScheme.app" eq_refl).
Defined.

Lemma simulatorOsVersion_witness :
  let pre := "com.apple.CoreSimulator.SimRuntime." in
  includes pre "iOS-" = false /\
  "17" <> "" /\ allDigits "17" = true /\
  "2" <> "" /\ allDigits "2" = true /\
  endOrNext (fun c => negb (isDigit c)) "" /\
  Manager.simulatorOsVersion (pre ++ "iOS-" ++ "17" ++ "-" ++ "2" ++ "") = "17.2".
Proof.
  intros pre.
  assert (H1 : "17" <> "") by discriminate.
  assert (H2 : "2" <> "") by discriminate.
  assert (H3 : endOrNext (fun c => negb (isDigit c)) "") by (left; reflexivity).
  split; [reflexivity|]. split; [exact H1|]. split; [reflexivity|].
  split; [exact H2|]. split; [reflexivity|]. split; [exact H3|].
  exact (simulatorOsVersion_reads_the_runtime pre "17" "2" "" eq_refl H1 eq_refl H2
           eq_refl H3).
Defined.

Lemma simulatorOsVersion_unknown_witness :
  includes "com.apple.CoreSimulator.SimRuntime.tvOS-17-0" "iOS-" = false /\
  Manager.simulatorOsVersion "com.apple.CoreSimulator.SimRuntime.tvOS-17-0" = "Unknown".
Proof.
  split; [reflexivity|].
  exact (simulatorOsVersion_unknown_without_iOS
           "com.apple.CoreSimulator.SimRuntime.tvOS-17-0" eq_refl).
Defined.

End MoreExamples.

(** * Replacing a running stream *)
Section LogStreamReplace.
Import JsString Manager Spec Spec2.

Variable A : Type.
Implicit Types (w : World A) (o : LogStreamOptions A).

Local Arguments onAll : simpl never.
Local Arguments consoleListeners : simpl never.
Local Arguments logListeners : simpl never.

(** [startLogStream] adds its children after those that are there, which it
    leaves as [stopLogStream] left them. *)
Lemma startLogStream_processes o w :
  exists news,
    processes (fst (startLogStream o w))
    = (processes (fst (stopLogStream w)) ++ news)%list.
Proof.
  unfold startLogStream.
  destruct (fst (stopLogStream w)) as [[lp0 id0 slp0] l0].
  unfold spawn, setLogProcessId, setStdoutLogProcess, setLogProcess.
  destruct (type (device o)); destruct (mode o) as [[]|];
    cbn -[onAll logListeners consoleListeners increment];
    rewrite ?onAll_spawned;
    cbn -[onAll logListeners consoleListeners increment];
    try (destruct lp0 as [q|];
         cbn -[onAll logListeners consoleListeners increment]);
    rewrite ?onAll_spawned;
    rewrite ?(onAll_spawned _ _ (l0 ++ [_]));
    cbn -[onAll logListeners consoleListeners increment];
    rewrite <- ?app_assoc; eexists; reflexivity.
Qed.

(** X25. [startLogStream] replaces whatever stream was running: every child
    that a handle held before the call has been sent SIGTERM by it, once per
    handle, the children that no handle held are not signalled, and the
    listeners of all of them stay in place. *)
Theorem startLogStream_replaces_the_stream :
  forall o w (pid : nat) (p : ChildProcess A),
    nth_error (processes w) pid = Some p ->
    exists p',
      nth_error (processes (fst (startLogStream o w))) pid = Some p' /\
      signals p' = (signals p ++ repeat "SIGTERM" (holds (globals w) pid))%list /\
      listeners p' = listeners p.
Proof.
  intros o w pid p Hp.
  destruct (stopLogStream_signals A w pid p Hp) as [p' [Hp' [Hsig [Hls _]]]].
  destruct (startLogStream_processes o w) as [news Hnews].
  exists p'. split; [|split; assumption].
  rewrite Hnews, nth_error_app1; [exact Hp'|].
  apply nth_error_Some. now rewrite Hp'.
Qed.

End LogStreamReplace.

Section ReplaceExample.
Import JsString Manager Spec Spec2.

Lemma startLogStream_replaces_witness :
  let o := recorder samplePhone (Some stdout) in
  let w := fst (startLogStream o initial) in
  exists p p',
    nth_error (processes w) 0 = Some p /\
    nth_error (processes (fst (startLogStream o w))) 0 = Some p' /\
    signals p' = ["SIGTERM"].
Proof.
  intros o w.
  destruct (nth_error (processes w) 0) as [p|] eqn:E; [|cbv in E; discriminate E].
  destruct (startLogStream_replaces_the_stream Call o w 0%nat p E)
    as [p' [Hp' [Hsig _]]].
  exists p, p'. split; [reflexivity|]. split; [exact Hp'|].
  rewrite Hsig. cbv in E. injection E as <-. reflexivity.
Defined.

End ReplaceExample.


(** ** Stopping a build *)

Section StopBuildFacts.
Import JsString Regex Spec Spec2.

Variable A : Type.
Variable host : Build.Env.
Variable options : Build.BuildOptions.
Variable onProgress : option (string -> list A).
Variable startTime : Z.

Lemma step_clearProcess (st : Build.State A) (ev : Build.Event) :
  Build.step A host options onProgress startTime (Build.clearProcess A st) ev
  = option_map (Build.clearProcess A)
      (Build.step A host options onProgress startTime st ev).
Proof.
  destruct ev as [text | text | code now | message now]; cbn [Build.step option_map].
  - unfold Build.onStdout.
    cbn [Build.clearProcess Build.lastPhase Build.buildOutput Build.notified
         Build.errorOutput Build.resolved Build.currentBuildProcess].
    destruct (phaseMatch text) as [k|]; [destruct (negb _)|]; reflexivity.
  - reflexivity.
  - unfold Build.onClose.
    destruct code as [[| |]|]; try destruct (appPathRegExp _ _); reflexivity.
  - reflexivity.
Qed.

Lemma run_clearProcess (evs : list Build.Event) (st : Build.State A) :
  Build.run A host options onProgress startTime evs (Build.clearProcess A st)
  = option_map (Build.clearProcess A)
      (Build.run A host options onProgress startTime evs st).
Proof.
  revert st. induction evs as [|ev evs IH]; intros st; cbn [Build.run].
  - reflexivity.
  - rewrite step_clearProcess.
    destruct (Build.step A host options onProgress startTime st ev) as [st1|];
      cbn [option_map]; [apply IH | reflexivity].
Qed.

(** X26. [stopBuild] answers whether a build was held and a second call
    answers false; it settles nothing itself.  The result of the build and
    the progress messages are those the events of the child give, whether
    [stopBuild] was called before them or not. *)
Theorem stopBuild_settles_nothing :
  forall (evs : list Build.Event) (st : Build.State A),
    let st0 := fst (Build.stopBuild A st) in
    snd (Build.stopBuild A st) = Build.currentBuildProcess A st /\
    snd (Build.stopBuild A st0) = false /\
    Build.resolved A st0 = Build.resolved A st /\
    option_map (Build.resolved A)
      (Build.run A host options onProgress startTime evs st0)
    = option_map (Build.resolved A)
        (Build.run A host options onProgress startTime evs st) /\
    option_map (Build.notified A)
      (Build.run A host options onProgress startTime evs st0)
    = option_map (Build.notified A)
        (Build.run A host options onProgress startTime evs st).
Proof.
  intros evs st. unfold Build.stopBuild.
  destruct (Build.currentBuildProcess A st) eqn:E; cbn [fst snd].
  - cbn [Build.clearProcess Build.currentBuildProcess Build.resolved].
    repeat split.
    + rewrite run_clearProcess.
      now destruct (Build.run A host options onProgress startTime evs st).
    + rewrite run_clearProcess.
      now destruct (Build.run A host options onProgress startTime evs st).
  - rewrite E. repeat split.
Qed.

End StopBuildFacts.
